(** * Combine Actions for Export: a shallow embedding of CombineAnimations.py

    The operator [CombineAnimationsOperator] of the add-on merges the
    animation clips of an object hierarchy into one master action.  This file
    embeds its methods ([find_root_object], [count_descendants],
    [get_hierarchy_objects], [find_animation_range],
    [create_standalone_action], [execute]), the [poll] and the counts of
    its panel and the functions [register] and [unregister], and proves
    the properties the specification states about them, then further
    properties of the code.

    Conventions of the embedding:
    - Python [str] is [string]; keyframe coordinates (Python floats) are
      rationals [Q], and [float('inf')] / [float('-inf')] are the two extra
      points of [Frame];
    - a host object handle is a node [Obj name children] of the scene tree;
      the mutable per-object data lives in [bpy.data.objects], a finite map
      keyed by the (unique) object name;
    - Python dictionaries are insertion-ordered association lists;
    - host calls that may fail ([bpy.ops.object.mode_set], [fcurves.new],
      [driver_add]) fail as the record [Host] decides, so that every
      property holds for any behaviour of the host; exceptions are results
      [Raise e w] of the monad [M], caught where the source has a [try]. *)

From Stdlib Require Import Ascii String QArith ZArith Lqa Qround.
From stdpp Require Import gmap strings list fin_maps.

Local Open Scope string_scope.
Local Open Scope list_scope.

(** ** Strings *)

Module Str.

(** [str.replace(old, new)] for one-character [old] and [new]. *)
Fixpoint replace (old new : ascii) (s : string) : string :=
  match s with
  | EmptyString => EmptyString
  | String c s' =>
      String (if Ascii.eqb c old then new else c) (replace old new s')
  end.

(** [str.lower()] on the ASCII range. *)
Definition lower_ascii (c : ascii) : ascii :=
  let n := nat_of_ascii c in
  if (65 <=? n)%nat && (n <=? 90)%nat then ascii_of_nat (n + 32) else c.

Fixpoint lower (s : string) : string :=
  match s with
  | EmptyString => EmptyString
  | String c s' => String (lower_ascii c) (lower s')
  end.

(** [s.startswith(p)] *)
Definition startswith (p s : string) : bool := String.prefix p s.

(** [p in s] *)
Fixpoint contains (p s : string) : bool :=
  String.prefix p s
  || match s with
     | EmptyString => false
     | String _ s' => contains p s'
     end.

End Str.

(** ** Naming of the synthesized custom properties
    (lines 236-252 and 281-299 of [create_standalone_action]) *)

Definition transform_props : list string :=
  ["location"; "rotation_euler"; "scale"].

(** [prop_name in ["location", "rotation_euler", "scale"]] *)
Definition is_transform (prop_name : string) : bool :=
  bool_decide (prop_name ∈ transform_props).

(** [obj_name.replace('.', '_').replace(' ', '_')] *)
Definition clean_obj_name (obj_name : string) : string :=
  Str.replace " " "_" (Str.replace "." "_" obj_name).

(** [["x", "y", "z"][axis]]; [None] is Python's [IndexError].  The host's
    [array_index] is a non-negative integer. *)
Definition component (axis : nat) : option string :=
  ["x"; "y"; "z"] !! axis.

(** The three-way [if/elif/else] building [prop_key]. *)
Definition prop_key (clean : string) (prop_name comp : string) : string :=
  if String.eqb prop_name "location" then clean +:+ "_loc_" +:+ comp
  else if String.eqb prop_name "rotation_euler" then clean +:+ "_rot_" +:+ comp
  else clean +:+ "_scale_" +:+ comp.

(** The key a channel [(obj_name, prop_name, axis)] is stored under. *)
Definition channel_key (obj_name prop_name : string) (axis : nat)
  : option string :=
  prop_key (clean_obj_name obj_name) prop_name <$> component axis.

(** [f'["{prop_key}"]'] *)
Definition custom_path (key : string) : string :=
  "[" +:+ String (ascii_of_nat 34) (key +:+ String (ascii_of_nat 34) "]").

(** ** Python helpers: extended floats, [min], [max], [int], dictionaries *)

(** A Python float that is either finite or one of [float('inf')],
    [float('-inf')]. *)
Inductive Frame : Type :=
| NegInf
| Fin (q : Q)
| PosInf.

(** [a < b] *)
Definition frame_lt (a b : Frame) : bool :=
  match a, b with
  | NegInf, NegInf => false
  | NegInf, _ => true
  | Fin _, NegInf => false
  | Fin x, Fin y => negb (Qle_bool y x)
  | Fin _, PosInf => true
  | PosInf, _ => false
  end.

(** [a == b] *)
Definition frame_eq (a b : Frame) : bool :=
  match a, b with
  | NegInf, NegInf => true
  | Fin x, Fin y => Qeq_bool x y
  | PosInf, PosInf => true
  | _, _ => false
  end.

(** [min(a, b)]: the first argument unless the second is smaller. *)
Definition py_min (a b : Frame) : Frame := if frame_lt b a then b else a.

(** [max(a, b)]: the first argument unless the second is greater. *)
Definition py_max (a b : Frame) : Frame := if frame_lt a b then b else a.

(** [x - m] and [x + m] for an integer [m]. *)
Definition frame_sub (x : Frame) (m : Z) : Frame :=
  match x with
  | Fin q => Fin (q - inject_Z m)
  | inf => inf
  end.

Definition frame_add (x : Frame) (m : Z) : Frame :=
  match x with
  | Fin q => Fin (q + inject_Z m)
  | inf => inf
  end.

(** [int(x)] truncates towards zero and raises [OverflowError] on an
    infinity ([None]). *)
Definition py_int (x : Frame) : option Z :=
  match x with
  | Fin q => Some (Z.quot (Qnum q) (Zpos (Qden q)))
  | _ => None
  end.

Module Dict.
Section Dict.
Context {K V : Type} `{EqDecision K}.

(** An insertion-ordered dictionary. *)
Definition t : Type := list (K * V).

(** [d.get(k)] *)
Fixpoint get (k : K) (d : t) : option V :=
  match d with
  | [] => None
  | (k', v) :: d' => if decide (k' = k) then Some v else get k d'
  end.

(** [d[k] = v]: overwrite in place, or append a new key. *)
Fixpoint set (k : K) (v : V) (d : t) : t :=
  match d with
  | [] => [(k, v)]
  | (k', v') :: d' =>
      if decide (k' = k) then (k, v) :: d' else (k', v') :: set k v d'
  end.

Definition keys (d : t) : list K := fst <$> d.
End Dict.
Arguments t : clear implicits.
End Dict.

(** ** Data model of the host *)

(** [(kf.co[0], kf.co[1])] *)
Definition Keyframe : Type := Q * Q.

Record FCurve : Type := mkFCurve {
  data_path : string;
  array_index : nat;
  keyframe_points : list Keyframe
}.

Record Action : Type := mkAction {
  action_name : string;
  use_fake_user : bool;
  fcurves : list FCurve
}.

(** A driver with its single variable, as [create_standalone_action] sets
    it up. *)
Record Driver : Type := mkDriver {
  driver_path : string;
  driver_index : nat;
  var_name : string;
  var_type : string;
  target_id : string;
  target_data_path : string;
  expression : string
}.

(** [obj.animation_data]; an action is referred to by its position in
    [bpy.data.actions]. *)
Record AnimData : Type := mkAnimData {
  action : option nat;
  nla_tracks : list string;
  drivers : list Driver
}.

Record ObjectData : Type := mkObjectData {
  animation_data : option AnimData;
  custom_props : gmap string Q;
  select : bool
}.

(** An object handle: its name and its children in the scene tree. *)
#[warnings="-register-all"]
Inductive Object : Type :=
  Obj { name : string; children : list Object }.

Inductive Level : Type := INFO | WARNING | ERROR.

(** The messages passed to [self.report], with the values they format. *)
Inductive Message : Type :=
| MsgStarting
| MsgSelectObject
| MsgSettingActive (obj_name : string)
| MsgModeNote
| MsgNoRoot
| MsgUsingRoot (obj_name : string)
| MsgFoundObjects (n : nat)
| MsgNoAnimated
| MsgFoundAnimated (n : nat)
| MsgRange (min_frame max_frame : Frame)
| MsgCollecting
| MsgCreatingProperty (key : string)
| MsgCreatedDriver (obj_name prop_name : string) (axis : nat) (key : string)
| MsgDriverError (obj_name prop_name : string) (axis : nat)
| MsgCreated (n : nat).

Record World : Type := mkWorld {
  objects : gmap string ObjectData;   (* bpy.data.objects *)
  actions : list Action;              (* bpy.data.actions *)
  view_layer : list Object;           (* the objects of the view layer *)
  active : option Object;             (* context.view_layer.objects.active *)
  mode : string;                      (* context.object.mode *)
  area_type : string;                 (* bpy.context.area.type *)
  frame_start : Z;                    (* context.scene.frame_start *)
  frame_end : Z;                      (* context.scene.frame_end *)
  frame_current : Z;                  (* context.scene.frame_current *)
  reports : list (Level * Message)    (* the host's report log *)
}.

Definition set_objects (f : gmap string ObjectData → gmap string ObjectData)
  (w : World) : World :=
  mkWorld (f (objects w)) (actions w) (view_layer w) (active w) (mode w)
    (area_type w) (frame_start w) (frame_end w) (frame_current w) (reports w).

Definition set_actions (f : list Action → list Action) (w : World) : World :=
  mkWorld (objects w) (f (actions w)) (view_layer w) (active w) (mode w)
    (area_type w) (frame_start w) (frame_end w) (frame_current w) (reports w).

Definition set_active (a : option Object) (w : World) : World :=
  mkWorld (objects w) (actions w) (view_layer w) a (mode w)
    (area_type w) (frame_start w) (frame_end w) (frame_current w) (reports w).

Definition set_mode (m : string) (w : World) : World :=
  mkWorld (objects w) (actions w) (view_layer w) (active w) m
    (area_type w) (frame_start w) (frame_end w) (frame_current w) (reports w).

Definition set_area_type (a : string) (w : World) : World :=
  mkWorld (objects w) (actions w) (view_layer w) (active w) (mode w)
    a (frame_start w) (frame_end w) (frame_current w) (reports w).

Definition set_frame_start (f : Z) (w : World) : World :=
  mkWorld (objects w) (actions w) (view_layer w) (active w) (mode w)
    (area_type w) f (frame_end w) (frame_current w) (reports w).

Definition set_frame_end (f : Z) (w : World) : World :=
  mkWorld (objects w) (actions w) (view_layer w) (active w) (mode w)
    (area_type w) (frame_start w) f (frame_current w) (reports w).

Definition set_frame_current (f : Z) (w : World) : World :=
  mkWorld (objects w) (actions w) (view_layer w) (active w) (mode w)
    (area_type w) (frame_start w) (frame_end w) f (reports w).

Definition add_report (l : Level) (m : Message) (w : World) : World :=
  mkWorld (objects w) (actions w) (view_layer w) (active w) (mode w)
    (area_type w) (frame_start w) (frame_end w) (frame_current w)
    (reports w ++ [(l, m)]).

Definition empty_object : ObjectData := mkObjectData None ∅ false.

(** The data behind a handle. *)
Definition obj_data (w : World) (obj_name : string) : ObjectData :=
  default empty_object (objects w !! obj_name).

Definition update_obj (obj_name : string) (f : ObjectData → ObjectData)
  (w : World) : World :=
  set_objects (λ m, <[obj_name := f (obj_data w obj_name)]> m) w.

(** The action behind a reference. *)
Definition get_action (w : World) (id : nat) : Action :=
  default (mkAction "" false []) (actions w !! id).

(** [obj.animation_data.action], when both exist. *)
Definition data_action (d : ObjectData) : option nat :=
  animation_data d ≫= action.

Definition obj_action (w : World) (obj_name : string) : option nat :=
  data_action (obj_data w obj_name).

(** [obj.animation_data.nla_tracks], empty without animation data. *)
Definition data_nla_tracks (d : ObjectData) : list string :=
  from_option nla_tracks [] (animation_data d).

Definition obj_nla_tracks (w : World) (obj_name : string) : list string :=
  data_nla_tracks (obj_data w obj_name).

(** The drivers of an object, empty without animation data. *)
Definition data_drivers (d : ObjectData) : list Driver :=
  from_option drivers [] (animation_data d).

Definition obj_drivers (w : World) (obj_name : string) : list Driver :=
  data_drivers (obj_data w obj_name).

(** [context.selected_objects] *)
Definition selected_objects (w : World) : list Object :=
  filter (λ obj, select (obj_data w (name obj)) = true) (view_layer w).

(** [obj.animation_data and obj.animation_data.action] *)
Definition is_animated (w : World) (obj : Object) : bool :=
  bool_decide (is_Some (obj_action w (name obj))).

(** ** The pure methods of the operator *)

(** [count_descendants] (lines 390-395) *)
Fixpoint count_descendants (obj : Object) : Z :=
  match obj with
  | Obj _ cs =>
      foldl (λ count child, count + count_descendants child)%Z
        (Z.of_nat (length cs)) cs
  end.

(** [get_hierarchy_objects] (lines 397-402) *)
Fixpoint get_hierarchy_objects (root_obj : Object) : list Object :=
  match root_obj with
  | Obj _ cs =>
      foldl (λ objects child, objects ++ get_hierarchy_objects child)
        [root_obj] cs
  end.

(** The test of the first loop of [find_root_object] (line 369). *)
Definition is_root_name (obj_name : string) : bool :=
  Str.contains "root" (Str.lower obj_name)
  || (Str.startswith "player" (Str.lower obj_name)
      || Str.startswith "character" (Str.lower obj_name)
      || Str.startswith "rig" (Str.lower obj_name)).

(** The test of the second loop (line 374). *)
Definition is_visual_name (obj_name : string) : bool :=
  Str.contains "visual" (Str.lower obj_name).

(** The body of the third loop (lines 381-386), on its state
    [(max_children, root_obj)]. *)
Definition most_descendants_step (state : Z * option Object) (obj : Object)
  : Z * option Object :=
  let '(max_children, root_obj) := state in
  let descendants := count_descendants obj in
  if (max_children <? descendants)%Z
  then (descendants, Some obj)
  else (max_children, root_obj).

(** The third loop (lines 378-386). *)
Definition most_descendants (objects : list Object) : Z * option Object :=
  foldl most_descendants_step ((-1)%Z, None) objects.

(** [find_root_object] (lines 365-388) *)
Definition find_root_object (objects : list Object) : option Object :=
  match List.find (λ obj, is_root_name (name obj)) objects with
  | Some obj => Some obj
  | None =>
      match List.find (λ obj, is_visual_name (name obj)) objects with
      | Some obj => Some obj
      | None => snd (most_descendants objects)
      end
  end.

(** One step of the inner loop of [find_animation_range] (lines 359-361). *)
Definition range_step (acc : Frame * Frame) (fcurve : FCurve)
  : Frame * Frame :=
  match keyframe_points fcurve with
  | [] => acc
  | kf0 :: rest =>
      (py_min (fst acc) (Fin (fst kf0)),
       py_max (snd acc) (Fin (fst (List.last rest kf0))))
  end.

(** [find_animation_range] (lines 350-363) *)
Definition find_animation_range (w : World) (objects : list Object)
  : Frame * Frame :=
  foldl (λ acc obj,
           match obj_action w (name obj) with
           | Some a => foldl range_step acc (fcurves (get_action w a))
           | None => acc
           end)
    (PosInf, NegInf) objects.

(** ** Effects: a state and exception monad over the host's world *)

Inductive Exn : Type := IndexError | RuntimeError | OverflowError.

(** The result set of an operator, [{'FINISHED'}] or [{'CANCELLED'}]. *)
Inductive Status : Type := FINISHED | CANCELLED.

(** A computation ends normally with a value or raises; the mutations made
    to the world up to that point persist in both cases. *)
Inductive Res (A : Type) : Type :=
| Ok (a : A) (w : World)
| Raise (e : Exn) (w : World).
Arguments Ok {A} a w.
Arguments Raise {A} e w.

Definition world_of {A} (r : Res A) : World :=
  match r with Ok _ w => w | Raise _ w => w end.

Definition M (A : Type) : Type := World → Res A.

Definition ret {A} (a : A) : M A := λ w, Ok a w.

Definition bind {A B} (m : M A) (k : A → M B) : M B :=
  λ w, match m w with
       | Ok a w' => k a w'
       | Raise e w' => Raise e w'
       end.

Definition get : M World := λ w, Ok w w.

Definition modify (f : World → World) : M unit := λ w, Ok tt (f w).

Definition raise {A} (e : Exn) : M A := λ w, Raise e w.

(** [try: m  except: h] *)
Definition try_catch {A} (m : M A) (h : Exn → M A) : M A :=
  λ w, match m w with
       | Ok a w' => Ok a w'
       | Raise e w' => h e w'
       end.

Declare Scope M_scope.
Delimit Scope M_scope with M.
Notation "'let*' x ':=' m 'in' k" := (bind m (λ x, k))
  (at level 10, x pattern, m at level 100, k at level 200) : M_scope.
Notation "m ;; k" := (bind m (λ _, k))
  (at level 100, k at level 200, right associativity) : M_scope.
Local Open Scope M_scope.

Definition when (b : bool) (m : M unit) : M unit := if b then m else ret tt.

(** [for x in l: body x] *)
Fixpoint for_ {A} (l : list A) (body : A → M unit) : M unit :=
  match l with
  | [] => ret tt
  | x :: l' => body x ;; for_ l' body
  end.

(** A [for] loop that updates a local variable [s]. *)
Fixpoint fold_for {A S} (l : list A) (s : S) (body : S → A → M S) : M S :=
  match l with
  | [] => ret s
  | x :: l' => let* s' := body s x in fold_for l' s' body
  end.

Definition report (l : Level) (m : Message) : M unit := modify (add_report l m).

(** ** The host calls used by the operator *)

(** What the embedding leaves to the host: which mode [bpy.context.mode]
    reports, and which of the calls that can fail do. *)
Record Host : Type := mkHost {
  (* bpy.context.mode *)
  context_mode : World → string;
  (* whether bpy.ops.object.mode_set(mode=m) succeeds *)
  mode_set_ok : World → string → bool;
  (* whether action.fcurves.new(data_path, index) succeeds on an action
     with the given curves *)
  fcurve_new_ok : list FCurve → string → nat → bool;
  (* whether obj.driver_add(prop_name, axis) succeeds *)
  driver_add_ok : string → string → nat → bool
}.

(** The properties of the operator (lines 41-70). *)
Record Operator : Type := mkOperator {
  target_action_name : string;
  keep_original_actions : bool;
  add_root_track : bool;
  frame_margin : Z;
  debug_mode : bool
}.

(** [fcurve.keyframe_points.insert(frame, value)] on the stored points: the
    host keeps a curve ordered by frame and replaces a point that sits on
    the same frame. *)
Fixpoint keyframe_insert (frame value : Q) (kps : list Keyframe)
  : list Keyframe :=
  match kps with
  | [] => [(frame, value)]
  | kp :: rest =>
      if Qeq_bool (fst kp) frame then (frame, value) :: rest
      else if Qle_bool frame (fst kp) then (frame, value) :: kps
      else kp :: keyframe_insert frame value rest
  end.

Definition update_action (id : nat) (f : Action → Action) : M unit :=
  modify (set_actions (λ l, alter f id l)).

Definition update_fcurve (fc : nat) (f : FCurve → FCurve) (a : Action)
  : Action :=
  mkAction (action_name a) (use_fake_user a) (alter f fc (fcurves a)).

(** [obj.animation_data_create()] when [obj.animation_data] is missing. *)
Definition ensure_animation_data (d : ObjectData) : ObjectData :=
  match animation_data d with
  | Some _ => d
  | None =>
      mkObjectData (Some (mkAnimData None [] [])) (custom_props d) (select d)
  end.

Definition update_anim (f : AnimData → AnimData) (d : ObjectData)
  : ObjectData :=
  mkObjectData (f <$> animation_data d) (custom_props d) (select d).

Definition set_action (a : option nat) (ad : AnimData) : AnimData :=
  mkAnimData a (nla_tracks ad) (drivers ad).

Definition set_nla_tracks (t : list string) (ad : AnimData) : AnimData :=
  mkAnimData (action ad) t (drivers ad).

Definition set_drivers (f : list Driver → list Driver) (ad : AnimData)
  : AnimData :=
  mkAnimData (action ad) (nla_tracks ad) (f (drivers ad)).

(** [obj[key] = value] *)
Definition set_custom_prop (key : string) (value : Q) (d : ObjectData)
  : ObjectData :=
  mkObjectData (animation_data d) (<[key := value]> (custom_props d))
    (select d).

(** [obj.select_set(state)] *)
Definition set_select (state : bool) (d : ObjectData) : ObjectData :=
  mkObjectData (animation_data d) (custom_props d) state.

(** [bpy.data.actions.new(name)]; returns the reference to the new action. *)
Definition actions_new (action_name : string) : M nat :=
  let* w := get in
  modify (set_actions (λ l, l ++ [mkAction action_name false []])) ;;
  ret (length (actions w)).

(** [["x", "y", "z"][axis]] *)
Definition index_component (axis : nat) : M string :=
  match component axis with
  | Some c => ret c
  | None => raise IndexError
  end.

(** The [while] loop of lines 336-337: remove the first track until none
    is left. *)
Fixpoint remove_tracks (tracks : list string) : list string :=
  match tracks with
  | [] => []
  | _ :: rest => remove_tracks rest
  end.

(** [obj.driver_remove(prop_name, axis)] *)
Definition driver_remove (prop_name : string) (axis : nat)
  (ds : list Driver) : list Driver :=
  filter (λ d, ¬ (driver_path d = prop_name ∧ driver_index d = axis)) ds.

(** ** The operator *)

Section Operator.
Variable host : Host.
Variable self : Operator.

(** A debug report, [if self.debug_mode: self.report(...)]. *)
Definition debug (l : Level) (m : Message) : M unit :=
  when (debug_mode self) (report l m).

(** [bpy.ops.object.mode_set(mode=m)] *)
Definition mode_set (m : string) : M unit :=
  let* w := get in
  if mode_set_ok host w m then modify (set_mode m) else raise RuntimeError.

(** [action.fcurves.new(data_path, index)]; returns the position of the
    new curve in the action. *)
Definition fcurves_new (id : nat) (path : string) (index : nat) : M nat :=
  let* w := get in
  let curves := fcurves (get_action w id) in
  if fcurve_new_ok host curves path index
  then update_action id
         (λ a, mkAction (action_name a) (use_fake_user a)
                 (fcurves a ++ [mkFCurve path index []])) ;;
       ret (length curves)
  else raise RuntimeError.

(** [fc.keyframe_points.insert(frame=frame, value=value)] *)
Definition keyframe_points_insert (id fc : nat) (kf : Keyframe) : M unit :=
  update_action id
    (update_fcurve fc
       (λ c, mkFCurve (data_path c) (array_index c)
               (keyframe_insert (fst kf) (snd kf) (keyframe_points c)))).

(** The block that occurs at lines 233-235 and at lines 262-266: a new
    curve, then one [insert] for each collected keyframe. *)
Definition copy_keyframes (id : nat) (path : string) (index : nat)
  (keyframes : list Keyframe) : M unit :=
  let* fc := fcurves_new id path index in
  for_ keyframes (keyframe_points_insert id fc).

(** *** Collecting the keyframes (lines 183-212) *)

(** The body of the loop over the curves of one action (lines 193-208). *)
Definition collect_fcurve
  (obj_data : Dict.t string (Dict.t nat (list Keyframe))) (fcurve : FCurve)
  : Dict.t string (Dict.t nat (list Keyframe)) :=
  let prop_name := data_path fcurve in
  let axis := array_index fcurve in
  let keyframes := keyframe_points fcurve in
  let obj_data :=
    match Dict.get prop_name obj_data with
    | None => Dict.set prop_name [] obj_data
    | Some _ => obj_data
    end in
  Dict.set prop_name
    (Dict.set axis keyframes (default [] (Dict.get prop_name obj_data)))
    obj_data.

(** The loop over the curves of one action, building [obj_data]. *)
Definition collect_obj_data (curves : list FCurve)
  : Dict.t string (Dict.t nat (list Keyframe)) :=
  foldl collect_fcurve [] curves.

(** The body of the loop over [animated_objects] (lines 184-212).  The
    dictionary [original_actions] it also fills is never read. *)
Definition collect_object (w : World)
  (animation_data : Dict.t string (Dict.t string (Dict.t nat (list Keyframe))))
  (obj : Object)
  : Dict.t string (Dict.t string (Dict.t nat (list Keyframe))) :=
  match obj_action w (name obj) with
  | None => animation_data
  | Some a =>
      match collect_obj_data (fcurves (get_action w a)) with
      | [] => animation_data
      | obj_data => Dict.set (name obj) obj_data animation_data
      end
  end.

(** The loop over [animated_objects], building [animation_data]. *)
Definition collect_animation_data (w : World)
  (animated_objects : list Object)
  : Dict.t string (Dict.t string (Dict.t nat (list Keyframe))) :=
  foldl (collect_object w) [] animated_objects.

(** *** First pass: the F-curves of the master action (lines 225-266) *)

(** The body of the innermost loop; [created] is
    [custom_props_to_create]. *)
Definition first_pass_channel (master : nat) (root_name obj_name
  prop_name : string) (created : Dict.t string bool)
  (channel : nat * list Keyframe) : M (Dict.t string bool) :=
  let '(axis, keyframes) := channel in
  let is_root := bool_decide (obj_name = root_name) in
  if is_root && is_transform prop_name then
    copy_keyframes master prop_name axis keyframes ;;
    ret created
  else
    let clean_obj_name := clean_obj_name obj_name in
    if is_transform prop_name then
      let* component := index_component axis in
      let prop_key := prop_key clean_obj_name prop_name component in
      let* w := get in
      let* created :=
        match custom_props (obj_data w root_name) !! prop_key with
        | None =>
            debug INFO (MsgCreatingProperty prop_key) ;;
            modify (update_obj root_name (set_custom_prop prop_key 0)) ;;
            ret (Dict.set prop_key true created)
        | Some _ => ret created
        end in
      copy_keyframes master (custom_path prop_key) 0 keyframes ;;
      ret created
    else ret created.

Definition first_pass (master : nat) (root_name : string)
  (animation_data : Dict.t string (Dict.t string (Dict.t nat (list Keyframe))))
  : M (Dict.t string bool) :=
  fold_for animation_data []
    (λ created '(obj_name, props),
       fold_for props created
         (λ created '(prop_name, axes),
            fold_for axes created
              (first_pass_channel master root_name obj_name prop_name))).

(** *** Second pass: the drivers (lines 268-325) *)

(** The driver [driver_add] returns, once lines 310-319 have filled it
    in. *)
Definition make_driver (root_name prop_name : string) (axis : nat)
  (key : string) : Driver :=
  mkDriver prop_name axis "value" "SINGLE_PROP" root_name
    (custom_path key) "value".

(** The body of the [try] block (lines 303-322). *)
Definition create_driver (root_name obj_name prop_name : string)
  (axis : nat) (key : string) : M unit :=
  modify (update_obj obj_name
            (update_anim (set_drivers (driver_remove prop_name axis)))) ;;
  (if driver_add_ok host obj_name prop_name axis
   then modify (update_obj obj_name
                  (λ d, update_anim
                          (set_drivers
                             (λ ds, ds ++ [make_driver root_name prop_name
                                             axis key]))
                          (ensure_animation_data d)))
   else raise RuntimeError) ;;
  debug INFO (MsgCreatedDriver obj_name prop_name axis key).

Definition second_pass_channel (root_name obj_name prop_name : string)
  (channel : nat * list Keyframe) : M unit :=
  let '(axis, _) := channel in
  let* component := index_component axis in
  let prop_key := prop_key (clean_obj_name obj_name) prop_name component in
  try_catch (create_driver root_name obj_name prop_name axis prop_key)
    (λ _, report WARNING (MsgDriverError obj_name prop_name axis)).

Definition second_pass (root_name : string)
  (animation_data : Dict.t string (Dict.t string (Dict.t nat (list Keyframe))))
  : M unit :=
  for_ animation_data
    (λ '(obj_name, props),
       if bool_decide (obj_name = root_name) then ret tt
       else
         let* w := get in
         match objects w !! obj_name with
         | None => ret tt
         | Some _ =>
             modify (update_obj obj_name ensure_animation_data) ;;
             for_ props
               (λ '(prop_name, axes),
                  if negb (is_transform prop_name) then ret tt
                  else
                    for_ axes
                      (second_pass_channel root_name obj_name prop_name))
         end).

(** *** Removing the original actions (lines 330-341) *)

Definition remove_original (root_object obj : Object) : M unit :=
  let* w := get in
  if negb (bool_decide (name obj = name root_object)) && is_animated w obj
  then
    modify (update_obj (name obj)
              (update_anim (λ ad, set_nla_tracks
                                    (remove_tracks (nla_tracks ad)) ad))) ;;
    modify (update_obj (name obj) (update_anim (set_action None)))
  else ret tt.

(** Lines 221-348 of [create_standalone_action]: the two passes, the
    removal of the original actions and the closing report. *)
Definition run_passes (root_object : Object)
  (animated_objects : list Object) (master_action : nat)
  (original_frame : Z)
  (animation_data : Dict.t string (Dict.t string (Dict.t nat (list Keyframe))))
  : M Status :=
  let* custom_props_to_create :=
    first_pass master_action (name root_object) animation_data in
  second_pass (name root_object) animation_data ;;
  (* context.view_layer.update() changes nothing that is modelled *)
  when (negb (keep_original_actions self))
    (for_ animated_objects (remove_original root_object)) ;;
  modify (set_frame_current original_frame) ;;
  report INFO (MsgCreated (length custom_props_to_create)) ;;
  ret FINISHED.

(** [create_standalone_action] (lines 167-348) *)
Definition create_standalone_action (root_object : Object)
  (animated_objects : list Object) (min_frame max_frame : Frame)
  : M Status :=
  let* master_action := actions_new (target_action_name self) in
  update_action master_action
    (λ a, mkAction (action_name a) true (fcurves a)) ;;
  let* w := get in
  let original_frame := frame_current w in
  debug INFO MsgCollecting ;;
  let* w := get in
  let animation_data := collect_animation_data w animated_objects in
  modify (update_obj (name root_object) ensure_animation_data) ;;
  modify (update_obj (name root_object)
            (update_anim (set_action (Some master_action)))) ;;
  run_passes root_object animated_objects master_action original_frame
    animation_data.

(** *** [execute] (lines 72-165) *)

(** [int(x)] *)
Definition to_int (x : Frame) : M Z :=
  match py_int x with
  | Some z => ret z
  | None => raise OverflowError
  end.

(** [bpy.ops.object.select_all(action='DESELECT')] *)
Definition deselect_all : M unit :=
  modify (set_objects (fmap (set_select false))).

(** The loop of lines 152-154. *)
Definition restore_selection (original_selected : list Object) : M unit :=
  for_ original_selected
    (λ obj,
       let* w := get in
       if bool_decide (is_Some (objects w !! name obj))
       then modify (update_obj (name obj) (set_select true))
       else ret tt).

(** Lines 155-156. *)
Definition restore_active (original_active : option Object) : M unit :=
  match original_active with
  | Some obj =>
      let* w := get in
      if bool_decide (is_Some (objects w !! name obj))
      then modify (set_active (Some obj))
      else ret tt
  | None => ret tt
  end.

(** The frame range of lines 129-137, from the result of
    [find_animation_range]. *)
Definition frame_range (w : World) (found : Frame * Frame)
  : Frame * Frame :=
  let '(min_frame, max_frame) := found in
  if frame_eq min_frame PosInf || frame_eq max_frame NegInf
  then (Fin (inject_Z (frame_start w)), Fin (inject_Z (frame_end w)))
  else (py_max (Fin 1) (frame_sub min_frame (frame_margin self)),
        frame_add max_frame (frame_margin self)).

(** Lines 89-93: make sure there is an active object. *)
Definition ensure_active (base_objects : list Object) : M unit :=
  let* w := get in
  match active w, base_objects with
  | None, first :: _ =>
      modify (set_active (Some first)) ;;
      debug INFO (MsgSettingActive (name first))
  | _, _ => ret tt
  end.

(** Lines 95-100: switch to object mode. *)
Definition ensure_object_mode : M unit :=
  try_catch
    (let* w := get in
     match active w with
     | Some _ =>
         if negb (String.eqb (mode w) "OBJECT")
         then mode_set "OBJECT" else ret tt
     | None => ret tt
     end)
    (λ _, report WARNING MsgModeNote).

(** Lines 139-144: set the frame range of the scene. *)
Definition set_scene_range (min_frame max_frame : Frame) : M unit :=
  let* frame := to_int min_frame in
  modify (set_frame_start frame) ;;
  let* frame := to_int max_frame in
  modify (set_frame_end frame) ;;
  debug INFO (MsgRange min_frame max_frame).

(** Lines 150-163: restore the selection and the editor state. *)
Definition restore_state (original_mode : string)
  (original_active : option Object) (original_area : string)
  (original_selected : list Object) : M unit :=
  deselect_all ;;
  restore_selection original_selected ;;
  restore_active original_active ;;
  modify (set_area_type original_area) ;;
  try_catch (mode_set original_mode) (λ _, ret tt).

(** Lines 126-165: the work of [execute] once a root and animated objects
    are found. *)
Definition run_combination (original_mode : string)
  (original_active : option Object) (original_area : string)
  (original_selected : list Object) (root_object : Object)
  (animated_objects : list Object) : M Status :=
  debug INFO (MsgFoundAnimated (length animated_objects)) ;;
  let* w := get in
  let '(min_frame, max_frame) :=
    frame_range w (find_animation_range w animated_objects) in
  set_scene_range min_frame max_frame ;;
  let* result :=
    create_standalone_action root_object animated_objects
      min_frame max_frame in
  restore_state original_mode original_active original_area
    original_selected ;;
  ret result.

Definition execute : M Status :=
  let* w := get in
  let original_mode := context_mode host w in
  let original_active := active w in
  let original_area := area_type w in
  let original_selected := selected_objects w in
  debug INFO MsgStarting ;;
  let* w := get in
  match selected_objects w with
  | [] => report ERROR MsgSelectObject ;; ret CANCELLED
  | (_ :: _) as base_objects =>
      ensure_active base_objects ;;
      ensure_object_mode ;;
      match find_root_object base_objects with
      | None => report ERROR MsgNoRoot ;; ret CANCELLED
      | Some root_object =>
          debug INFO (MsgUsingRoot (name root_object)) ;;
          let all_objects := get_hierarchy_objects root_object in
          debug INFO (MsgFoundObjects (length all_objects)) ;;
          let* w := get in
          let animated_objects :=
            filter (λ obj, is_animated w obj = true) all_objects in
          match animated_objects with
          | [] => report WARNING MsgNoAnimated ;; ret CANCELLED
          | _ :: _ =>
              run_combination original_mode original_active original_area
                original_selected root_object animated_objects
          end
      end
  end.

End Operator.

(** ** The panel *)

(** [CombineAnimationsPanel.poll] (lines 416-419) *)
Definition poll (w : World) : bool :=
  bool_decide (area_type w ∈ ["NLA_EDITOR"; "DOPESHEET_EDITOR"]).

(** The two counts of the info box of [CombineAnimationsPanel.draw]
    (lines 431-437), shown when objects are selected. *)
Definition draw_info (w : World) : option (nat * nat) :=
  match selected_objects w with
  | [] => None
  | _ :: _ =>
      let selected_count := length (selected_objects w) in
      let animated_count :=
        length (filter (λ obj, is_animated w obj = true)
                  (selected_objects w)) in
      Some (selected_count, animated_count)
  end.




(** ** Registration (lines 464-503) *)

(** A property declaration, [bpy.props.BoolProperty(...)] or
    [bpy.props.IntProperty(...)]. *)
Inductive PropertyDecl : Type :=
| BoolProperty (prop_name description : string) (default : bool)
| IntProperty (prop_name description : string) (default min : Z).

(** What registration changes: the attributes of [bpy.types.Scene] and the
    classes that are registered. *)
Record Registry : Type := mkRegistry {
  scene_props : gmap string PropertyDecl;
  classes : gset string
}.

Inductive RegistryExn : Type :=
| AttributeError     (* del of an attribute that is not there *)
| ValueError         (* register_class of a registered class *)
| NotRegistered.     (* the RuntimeError of unregister_class for a class
                        that is not registered *)

Inductive Registered : Type :=
| Done (r : Registry)
| Failed (e : RegistryExn) (r : Registry).

(** One statement after the other: the second runs when the first has not
    raised. *)
Definition and_then (first : Registry → Registered)
  (second : Registry → Registered) (r : Registry) : Registered :=
  match first r with
  | Done r' => second r'
  | Failed e r' => Failed e r'
  end.

(** [bpy.types.Scene.<attr> = decl] *)
Definition set_scene_prop (attr : string) (decl : PropertyDecl)
  (r : Registry) : Registered :=
  Done (mkRegistry (<[attr := decl]> (scene_props r)) (classes r)).

(** [del bpy.types.Scene.<attr>]: raises [AttributeError] when the
    attribute is not there. *)
Definition del_scene_prop (attr : string) (r : Registry) : Registered :=
  match scene_props r !! attr with
  | Some _ => Done (mkRegistry (delete attr (scene_props r)) (classes r))
  | None => Failed AttributeError r
  end.

(** [bpy.utils.register_class(cls)]: a class is registered once, a second
    registration raises [ValueError]. *)
Definition register_class (cls : string) (r : Registry) : Registered :=
  if decide (cls ∈ classes r) then Failed ValueError r
  else Done (mkRegistry (scene_props r) ({[cls]} ∪ classes r)).

(** [bpy.utils.unregister_class(cls)]: raises for a class that is not
    registered. *)
Definition unregister_class (cls : string) (r : Registry) : Registered :=
  if decide (cls ∈ classes r)
  then Done (mkRegistry (scene_props r) (classes r ∖ {[cls]}))
  else Failed NotRegistered r.

(** [register] (lines 464-492) *)
Definition register : Registry → Registered :=
  and_then
    (set_scene_prop "ca_keep_originals"
       (BoolProperty "Keep Original Actions"
          "Keep the original actions after combining" true))
    (and_then
       (set_scene_prop "ca_add_root_track"
          (BoolProperty "Add Root Track"
             "Add location/rotation track for the root bone (needed for Unreal)"
             true))
       (and_then
          (set_scene_prop "ca_frame_margin"
             (IntProperty "Frame Margin"
                "Extra frames to add before and after detected animation range"
                5 0))
          (and_then
             (set_scene_prop "ca_debug_mode"
                (BoolProperty "Debug Mode"
                   "Print detailed information during process" true))
             (and_then (register_class "CombineAnimationsOperator")
                (register_class "CombineAnimationsPanel"))))).

(** [unregister] (lines 495-503) *)
Definition unregister : Registry → Registered :=
  and_then (del_scene_prop "ca_keep_originals")
    (and_then (del_scene_prop "ca_add_root_track")
       (and_then (del_scene_prop "ca_frame_margin")
          (and_then (del_scene_prop "ca_debug_mode")
             (and_then (unregister_class "CombineAnimationsOperator")
                (unregister_class "CombineAnimationsPanel"))))).

(** * An example scene *)

(** A host on which every guarded call succeeds, and which refuses a second
    curve on one data path and index. *)
Definition blender : Host :=
  mkHost (λ w, mode w) (λ _ _, true)
    (λ curves path index,
       negb (existsb (λ c, String.eqb (data_path c) path
                           && Nat.eqb (array_index c) index) curves))
    (λ _ _ _, true).

(** The same host, on which no driver can be added. *)
Definition driverless : Host :=
  mkHost (context_mode blender) (mode_set_ok blender)
    (fcurve_new_ok blender) (λ _ _ _, false).

Definition options : Operator :=
  mkOperator "Combined_Animation" true true 5 true.

Definition head_object : Object := Obj "Head" [].
Definition arm_object : Object := Obj "Arm.L" [].
Definition rig_object : Object := Obj "Rig" [head_object; arm_object].

Definition rig_action : Action :=
  mkAction "RigAction" false
    [mkFCurve "location" 0 [(1, 0); (10, 5)]%Q].

Definition arm_action : Action :=
  mkAction "ArmAction" false
    [mkFCurve "location" 1 [(3, 0); (20, 5 # 2)]%Q;
     mkFCurve "rotation_quaternion" 0 [(2, 7)]%Q].

(** The rig and its arm are selected and animated; no object is active. *)
Definition scene : World :=
  mkWorld
    (list_to_map
       [("Rig", mkObjectData (Some (mkAnimData (Some 0%nat) [] [])) ∅ true);
        ("Head", mkObjectData None ∅ false);
        ("Arm.L",
         mkObjectData (Some (mkAnimData (Some 1%nat) ["ArmTrack"] [])) ∅
           true)])
    [rig_action; arm_action] [rig_object; head_object; arm_object]
    None "OBJECT" "DOPESHEET_EDITOR" 1 250 7 [].



(** The example scene in pose mode, with the head alone selected and
    active: nothing in the hierarchy of the head is animated. *)
Definition head_scene : World :=
  set_mode "POSE"
    (set_active (Some head_object)
       (update_obj "Head" (set_select true)
          (update_obj "Rig" (set_select false)
             (update_obj "Arm.L" (set_select false) scene)))).

(** * Vocabulary of the properties *)

(** The suffix [prop_key] appends to the cleaned name. *)
Definition key_suffix (prop_name comp : string) : string :=
  if String.eqb prop_name "location" then "_loc_" +:+ comp
  else if String.eqb prop_name "rotation_euler" then "_rot_" +:+ comp
  else "_scale_" +:+ comp.

(** A name without ['.'] and [' ']. *)
Fixpoint plain_name (s : string) : bool :=
  match s with
  | EmptyString => true
  | String c s' =>
      negb (Ascii.eqb c ".") && negb (Ascii.eqb c " ") && plain_name s'
  end.

(** [descendant root x]: [x] is reached from [root] by following one or
    more child links. *)
Inductive descendant : Object → Object → Prop :=
| descendant_child obj child :
    child ∈ children obj → descendant obj child
| descendant_step obj child x :
    child ∈ children obj → descendant child x → descendant obj x.

(** The frames of all keyframes of a curve, and of all curves of the
    objects that have an action. *)
Definition curve_frames (fcurve : FCurve) : list Q :=
  fst <$> keyframe_points fcurve.

Definition action_frames (w : World) (obj : Object) : list Q :=
  match obj_action w (name obj) with
  | Some a => concat (curve_frames <$> fcurves (get_action w a))
  | None => []
  end.

Definition keyframe_frames (w : World) (objects : list Object) : list Q :=
  concat (action_frames w <$> objects).

(** A curve whose points are ordered by frame. *)
Fixpoint ordered_by_frame (kps : list Keyframe) : bool :=
  match kps with
  | kp :: rest =>
      match rest with
      | kp' :: _ => Qle_bool (fst kp) (fst kp')
      | [] => true
      end && ordered_by_frame rest
  | [] => true
  end.

(** [range] is the pair of the least and the greatest of [frames], or
    [(inf, -inf)] when there is none. *)
Definition range_of (frames : list Q) (range : Frame * Frame) : Prop :=
  (frames = [] ∧ range = (PosInf, NegInf))
  ∨ ∃ lo hi, range = (Fin lo, Fin hi) ∧ lo ∈ frames ∧ hi ∈ frames
             ∧ ∀ f, f ∈ frames → (lo <= f)%Q ∧ (f <= hi)%Q.

(** The data of the scene that the preparations of [execute] leave
    alone. *)
Definition same_data (w0 w : World) : Prop :=
  objects w = objects w0 ∧ actions w = actions w0
  ∧ view_layer w = view_layer w0 ∧ area_type w = area_type w0
  ∧ frame_start w = frame_start w0 ∧ frame_end w = frame_end w0
  ∧ frame_current w = frame_current w0.

(** [quiet m]: the computation [m] ends normally and leaves the data of the
    scene alone. *)
Definition quiet (m : M unit) : Prop :=
  ∀ w, ∃ w', m w = Ok tt w' ∧ same_data w w' ∧ active w' = active w.

(** The objects of the hierarchy that are animated (lines 117-120). *)
Definition animated_in (w : World) (root_object : Object) : list Object :=
  filter (λ obj, is_animated w obj = true)
    (get_hierarchy_objects root_object).

(** [inv I m]: the computation [m] keeps the property [I] of the world,
    whether it ends normally or raises. *)
Definition inv {A} (I : World → Prop) (m : M A) : Prop :=
  ∀ w, I w → I (world_of (m w)).

(** [total m]: the computation [m] never raises. *)
Definition total {A} (m : M A) : Prop :=
  ∀ w, ∃ a w', m w = Ok a w'.

(** The editor state that [create_standalone_action] leaves alone. *)
Definition same_editor (w0 w : World) : Prop :=
  view_layer w = view_layer w0 ∧ active w = active w0 ∧ mode w = mode w0
  ∧ area_type w = area_type w0 ∧ frame_start w = frame_start w0
  ∧ frame_end w = frame_end w0 ∧ frame_current w = frame_current w0.


(** The world in which [create_standalone_action] collects the keyframes:
    the master action is created (lines 169-181). *)
Definition with_master (self : Operator) (w : World) : World :=
  let w1 :=
    set_actions
      (λ l, l ++ [mkAction (target_action_name self) false []]) w in
  let w2 :=
    set_actions
      (alter (λ a, mkAction (action_name a) true (fcurves a))
         (length (actions w))) w1 in
  if debug_mode self then add_report INFO MsgCollecting w2 else w2.

(** The world in which the passes start: the master action is assigned to
    the root (lines 214-219). *)
Definition with_root_action (self : Operator) (root_object : Object)
  (w : World) : World :=
  update_obj (name root_object)
    (update_anim (set_action (Some (length (actions w)))))
    (update_obj (name root_object) ensure_animation_data
       (with_master self w)).

(** The world with one curve more in an action. *)
Definition add_fcurve (id : nat) (c : FCurve) (w : World) : World :=
  set_actions
    (alter (λ a, mkAction (action_name a) (use_fake_user a)
                   (fcurves a ++ [c])) id) w.

(** The points of a curve after the inserts of [copy_keyframes]. *)
Definition inserted (keyframes : list Keyframe) : list Keyframe :=
  foldl (λ kps kf, keyframe_insert (fst kf) (snd kf) kps) [] keyframes.


(** The channel of a curve: its property and its axis. *)
Definition channel (fcurve : FCurve) : string * nat :=
  (data_path fcurve, array_index fcurve).


(** The keyframes a dictionary of curves holds for a channel. *)
Definition channel_keyframes
  (obj_data : Dict.t string (Dict.t nat (list Keyframe)))
  (prop_name : string) (axis : nat) : option (list Keyframe) :=
  Dict.get prop_name obj_data ≫= Dict.get axis.

(** What the passes create: a curve of an action, a custom property of an
    object, a driver of an object. *)
Definition has_curve (id : nat) (c : FCurve) (w : World) : Prop :=
  c ∈ fcurves (get_action w id).

Definition has_custom_prop (obj_name key : string) (w : World) : Prop :=
  is_Some (custom_props (obj_data w obj_name) !! key).

Definition has_driver (obj_name : string) (d : Driver) (w : World) : Prop :=
  d ∈ obj_drivers w obj_name.

(** [grows w w']: from [w] to [w'] no action, curve, custom property or
    object is lost. *)
Definition grows (w w' : World) : Prop :=
  length (actions w') = length (actions w)
  ∧ (∀ id c, has_curve id c w → has_curve id c w')
  ∧ (∀ n key, has_custom_prop n key w → has_custom_prop n key w')
  ∧ (∀ n, is_Some (objects w !! n) → is_Some (objects w' !! n)).



(** [driven touched w w']: from [w] to [w'] nothing is lost, and neither
    is a driver that is not [touched]. *)
Definition driven (touched : string → Driver → Prop) (w w' : World) : Prop :=
  grows w w'
  ∧ ∀ n d, has_driver n d w → ¬ touched n d → has_driver n d w'.


(** [logged P w w']: from [w] to [w'] the report log grows by entries that
    satisfy [P]. *)
Definition logged (P : Level * Message → Prop) (w w' : World) : Prop :=
  ∃ log, reports w' = reports w ++ log ∧ Forall P log.

(** The reports of the preparations of [execute]: debug output, and the
    note on a mode that cannot be left. *)
Definition preparation_report (r : Level * Message) : Prop :=
  r.1 = INFO ∨ r = (WARNING, MsgModeNote).


Definition ok_or {A} (e : Exn) (m : M A) : Prop :=
  ∀ w, (∃ a w', m w = Ok a w') ∨ ∃ w', m w = Raise e w'.



(** [created_props old root_name created w]: the dictionary
    [custom_props_to_create] holds, once each, the custom properties the
    root has in [w] and did not have among [old]. *)
Definition created_props (old : gmap string Q) (root_name : string)
  (created : Dict.t string bool) (w : World) : Prop :=
  NoDup (Dict.keys created)
  ∧ dom (custom_props (obj_data w root_name))
    = dom old ∪ list_to_set (Dict.keys created)
  ∧ ∀ key, key ∈ Dict.keys created → old !! key = None.



(** The world with another report log. *)
Definition set_reports (r : list (Level * Message)) (w : World) : World :=
  mkWorld (objects w) (actions w) (view_layer w) (active w) (mode w)
    (area_type w) (frame_start w) (frame_end w) (frame_current w) r.

(** [alike w w']: the worlds differ in their report logs at most. *)
Definition alike (w w' : World) : Prop := set_reports [] w = set_reports [] w'.

(** A host that does not read the report log. *)
Definition log_blind (host : Host) : Prop :=
  ∀ w w', alike w w' →
          context_mode host w = context_mode host w'
          ∧ ∀ m, mode_set_ok host w m = mode_set_ok host w' m.

(** Two results with the same value or exception, in worlds that are
    alike. *)
Definition alike_results {A} (r r' : Res A) : Prop :=
  match r, r' with
  | Ok a w, Ok a' w' => a = a' ∧ alike w w'
  | Raise e w, Raise e' w' => e = e' ∧ alike w w'
  | _, _ => False
  end.

(** [sim m m']: run in worlds that are alike, [m] and [m'] have results
    that are alike. *)
Definition sim {A} (m m' : M A) : Prop :=
  ∀ w w', alike w w' → alike_results (m w) (m' w').

(** The names [register] declares. *)
Definition addon_props : list string :=
  ["ca_keep_originals"; "ca_add_root_track"; "ca_frame_margin";
   "ca_debug_mode"].

Definition addon_classes : list string :=
  ["CombineAnimationsOperator"; "CombineAnimationsPanel"].

(** A registry without the add-on. *)
Definition unregistered (r : Registry) : Prop :=
  (∀ attr, attr ∈ addon_props → scene_props r !! attr = None)
  ∧ ∀ cls, cls ∈ addon_classes → cls ∉ classes r.

(** * Properties *)

(** ** Strings and the naming of custom properties *)

Local Arguments String.append !_ _ / : simpl nomatch.

Lemma append_length (s t : string) :
  String.length (s +:+ t) = (String.length s + String.length t)%nat.
Proof. induction s as [|c s IH]; simpl; [done | by rewrite IH]. Qed.

Lemma append_assoc (s t u : string) : (s +:+ t) +:+ u = s +:+ (t +:+ u).
Proof. induction s as [|c s IH]; simpl; [done | by rewrite IH]. Qed.

(** Two concatenations with suffixes of one length agree part by part. *)
Lemma append_eq_inv (s1 s2 t1 t2 : string) :
  String.length t1 = String.length t2 →
  s1 +:+ t1 = s2 +:+ t2 → s1 = s2 ∧ t1 = t2.
Proof.
  revert s2. induction s1 as [|c1 s1 IH]; intros [|c2 s2] Hlen Heq; simpl in *.
  - done.
  - exfalso. rewrite Heq in Hlen. simpl in Hlen.
    rewrite append_length in Hlen. lia.
  - exfalso. rewrite <- Heq in Hlen. simpl in Hlen.
    rewrite append_length in Hlen. lia.
  - injection Heq as -> Heq. destruct (IH _ Hlen Heq) as [-> ->]. done.
Qed.

Lemma is_transform_cases (p : string) :
  is_transform p = true →
  p = "location" ∨ p = "rotation_euler" ∨ p = "scale".
Proof.
  unfold is_transform, transform_props. intros H%bool_decide_eq_true.
  rewrite !elem_of_cons in H. destruct H as [-> | [-> | [-> | H]]]; auto.
  by apply elem_of_nil in H.
Qed.

Lemma component_cases (axis : nat) (c : string) :
  component axis = Some c →
  (axis = 0%nat ∧ c = "x") ∨ (axis = 1%nat ∧ c = "y")
  ∨ (axis = 2%nat ∧ c = "z").
Proof.
  unfold component. destruct axis as [|[|[|n]]]; simpl; intros H; simplify_eq;
    auto.
Qed.

Lemma prop_key_suffix (clean p c : string) :
  prop_key clean p c = clean +:+ key_suffix p c.
Proof.
  unfold prop_key, key_suffix.
  destruct (String.eqb p "location"); [done|].
  destruct (String.eqb p "rotation_euler"); done.
Qed.

(** Keys of transform channels are equal only for one property, one axis and
    one cleaned name. *)
Lemma prop_key_inj (n1 n2 p1 p2 : string) (a1 a2 : nat) (c1 c2 : string) :
  is_transform p1 = true → is_transform p2 = true →
  component a1 = Some c1 → component a2 = Some c2 →
  prop_key n1 p1 c1 = prop_key n2 p2 c2 →
  n1 = n2 ∧ p1 = p2 ∧ a1 = a2.
Proof.
  intros Hp1 Hp2 Hc1 Hc2. rewrite !prop_key_suffix.
  apply is_transform_cases in Hp1, Hp2.
  apply component_cases in Hc1, Hc2.
  assert (Hsame : ∀ s t, String.length s = String.length t →
            n1 +:+ s = n2 +:+ t → n1 = n2 ∧ s = t)
    by (intros; by apply append_eq_inv).
  assert (Hlong : ∀ s t, String.length s = String.length t →
            n1 +:+ s = n2 +:+ ("_s" +:+ t) → s = t).
  { intros s t Hl He. rewrite <- (append_assoc n2 "_s" t) in He.
    by destruct (append_eq_inv _ _ _ _ Hl He). }
  assert (Hlong' : ∀ s t, String.length s = String.length t →
            n1 +:+ ("_s" +:+ t) = n2 +:+ s → s = t).
  { intros s t Hl He. rewrite <- (append_assoc n1 "_s" t) in He.
    symmetry in Hl. by destruct (append_eq_inv _ _ _ _ Hl He). }
  destruct Hp1 as [-> | [-> | ->]], Hp2 as [-> | [-> | ->]],
    Hc1 as [[-> ->] | [[-> ->] | [-> ->]]],
    Hc2 as [[-> ->] | [[-> ->] | [-> ->]]];
    cbn; intros He;
    first
      [ apply Hsame in He; [| reflexivity]; destruct He as [-> He];
        first [ discriminate He | done ]
      | apply (Hlong _ "cale_x") in He; [discriminate He | reflexivity]
      | apply (Hlong _ "cale_y") in He; [discriminate He | reflexivity]
      | apply (Hlong _ "cale_z") in He; [discriminate He | reflexivity]
      | apply (Hlong' _ "cale_x") in He; [discriminate He | reflexivity]
      | apply (Hlong' _ "cale_y") in He; [discriminate He | reflexivity]
      | apply (Hlong' _ "cale_z") in He; [discriminate He | reflexivity] ].
Qed.

(** Cleaning leaves a plain name as it is. *)
Lemma clean_plain_name (s : string) :
  plain_name s = true → clean_obj_name s = s.
Proof.
  unfold clean_obj_name. induction s as [|c s IH]; simpl; [done|].
  intros H. apply andb_true_iff in H as [H12 H3].
  apply andb_true_iff in H12 as [H1 H2].
  apply negb_true_iff in H1, H2. rewrite H1. rewrite H2. by rewrite IH.
Qed.

(** C2 (as amended): the keys of two transform channels are equal only when
    the property and the axis are equal and the object names are equal after
    cleaning; for names without ['.'] and [' '] the object names are then
    equal, so distinct channels of such objects never share a field. *)
Theorem channel_key_injective (o1 p1 : string) (a1 : nat) (o2 p2 : string)
  (a2 : nat) (k : string) :
  is_transform p1 = true → is_transform p2 = true →
  channel_key o1 p1 a1 = Some k → channel_key o2 p2 a2 = Some k →
  clean_obj_name o1 = clean_obj_name o2 ∧ p1 = p2 ∧ a1 = a2
  ∧ (plain_name o1 = true → plain_name o2 = true → o1 = o2).
Proof.
  unfold channel_key. intros Hp1 Hp2 H1 H2.
  destruct (component a1) as [c1|] eqn:Hc1; [|discriminate].
  destruct (component a2) as [c2|] eqn:Hc2; [|discriminate].
  simpl in H1, H2. injection H1 as H1. injection H2 as H2.
  destruct (prop_key_inj _ _ _ _ _ _ _ _ Hp1 Hp2 Hc1 Hc2 (eq_trans H1 (eq_sym H2)))
    as (Hn & Hp & Ha).
  repeat split; try done.
  intros Hplain1 Hplain2.
  by rewrite <- (clean_plain_name o1), <- (clean_plain_name o2).
Qed.

Lemma channel_key_injective_witness :
  is_transform "location" = true
  ∧ channel_key "Arm.L" "location" 0 = Some "Arm_L_loc_x"
  ∧ channel_key "Arm_L" "location" 0 = Some "Arm_L_loc_x"
  ∧ clean_obj_name "Arm.L" = clean_obj_name "Arm_L".
Proof.
  split; [reflexivity|]. split; [reflexivity|]. split; [reflexivity|].
  apply (channel_key_injective "Arm.L" "location" 0 "Arm_L" "location" 0
           "Arm_L_loc_x"); reflexivity.
Defined.

(** C2 (as stated) fails: the distinct channels of ["Arm.L"] and ["Arm_L"]
    on [location], axis 0, get one key. *)
Lemma channel_key_collision :
  ("Arm.L", "location", 0%nat) ≠ ("Arm_L", "location", 0%nat)
  ∧ channel_key "Arm.L" "location" 0 = Some "Arm_L_loc_x"
  ∧ channel_key "Arm_L" "location" 0 = Some "Arm_L_loc_x".
Proof. split; [discriminate|]. split; reflexivity. Qed.

(** ** The scene tree: hierarchy walker and root selection *)

(** Induction on an object with the hypothesis for all its children. *)
Lemma Object_forall_ind (P : Object → Prop) :
  (∀ n cs, Forall P cs → P (Obj n cs)) → ∀ obj, P obj.
Proof.
  intros step. fix IH 1. intros [n cs]. apply step.
  induction cs as [|c cs IHcs]; constructor; [apply IH | exact IHcs].
Qed.

Lemma elem_of_concat {A} (x : A) (ls : list (list A)) :
  x ∈ concat ls ↔ ∃ l, x ∈ l ∧ l ∈ ls.
Proof.
  rewrite list_elem_of_In, in_concat. split.
  - intros (l & Hl & Hx). exists l. by rewrite !list_elem_of_In.
  - intros (l & Hx & Hl). exists l. by rewrite <- !list_elem_of_In.
Qed.

Lemma foldl_extend {A B} (f : B → list A) (init : list A) (l : list B) :
  foldl (λ acc x, acc ++ f x) init l = init ++ concat (f <$> l).
Proof.
  revert init. induction l as [|x l IH]; intros init; simpl.
  - by rewrite app_nil_r.
  - rewrite IH. by rewrite <- app_assoc.
Qed.

Lemma get_hierarchy_objects_unfold (n : string) (cs : list Object) :
  get_hierarchy_objects (Obj n cs)
  = Obj n cs :: concat (get_hierarchy_objects <$> cs).
Proof. simpl. by rewrite foldl_extend. Qed.

Lemma foldl_count (f : Object → Z) (init : Z) (l : list Object) :
  foldl (λ count x, count + f x)%Z init l
  = (init + foldr (λ x acc, f x + acc) 0 l)%Z.
Proof.
  revert init. induction l as [|x l IH]; intros init; simpl; [lia|].
  rewrite IH. lia.
Qed.

(** [count_descendants] counts the objects the walker returns, the root
    left out. *)
Lemma count_descendants_hierarchy (obj : Object) :
  count_descendants obj
  = (Z.of_nat (length (get_hierarchy_objects obj)) - 1)%Z.
Proof.
  induction obj as [n cs IH] using Object_forall_ind.
  rewrite get_hierarchy_objects_unfold. simpl count_descendants.
  rewrite foldl_count. simpl length.
  induction IH as [|c cs Hc _ IHcs]; csimpl; [lia|].
  rewrite length_app, Hc. lia.
Qed.

Lemma count_descendants_nonneg (obj : Object) : (0 ≤ count_descendants obj)%Z.
Proof.
  rewrite count_descendants_hierarchy. destruct obj as [n cs].
  rewrite get_hierarchy_objects_unfold. simpl. lia.
Qed.

Lemma descendant_trans (a b c : Object) :
  descendant a b → descendant b c → descendant a c.
Proof.
  induction 1 as [obj child Hin | obj child x Hin _ IH]; intros Hbc.
  - by eapply descendant_step.
  - eapply descendant_step; [done | by apply IH].
Qed.

Lemma descendant_inv (obj x : Object) :
  descendant obj x →
  ∃ child, child ∈ children obj ∧ (x = child ∨ descendant child x).
Proof.
  intros H. destruct H as [obj c Hc | obj c y Hc Hy]; exists c;
    (split; [exact Hc|]); [by left | by right].
Qed.

(** C6: the walker applied to the root returns the root followed by its
    descendants: an object is in the list exactly when it is the root or is
    reached from it by following child links. *)
Theorem get_hierarchy_objects_descendants (root_obj : Object) :
  ∃ rest, get_hierarchy_objects root_obj = root_obj :: rest
          ∧ ∀ x, x ∈ rest ↔ descendant root_obj x.
Proof.
  induction root_obj as [n cs IH] using Object_forall_ind.
  exists (concat (get_hierarchy_objects <$> cs)).
  split; [apply get_hierarchy_objects_unfold|].
  intros x. rewrite elem_of_concat. split.
  - intros (l & Hx & Hl). apply list_elem_of_fmap in Hl as (c & -> & Hc).
    rewrite Forall_forall in IH. destruct (IH c Hc) as (rest & Heq & Hrest).
    rewrite Heq in Hx. apply elem_of_cons in Hx as [-> | Hx].
    + by apply descendant_child.
    + eapply descendant_step; [exact Hc | by apply Hrest].
  - intros Hd. rewrite Forall_forall in IH.
    assert (Hcases : ∃ c, c ∈ cs ∧ (x = c ∨ descendant c x)).
    { apply descendant_inv in Hd. exact Hd. }
    destruct Hcases as (c & Hc & Hx).
    exists (get_hierarchy_objects c). split; [|by apply list_elem_of_fmap_2].
    destruct (IH c Hc) as (rest & Heq & Hrest). rewrite Heq.
    destruct Hx as [-> | Hx]; [by left | right; by apply Hrest].
Qed.

Lemma find_none_Forall {A} (f : A → bool) (l : list A) :
  List.find f l = None → Forall (λ x, f x = false) l.
Proof.
  intros H. apply Forall_forall. intros x Hx.
  apply (List.find_none f l H). by apply list_elem_of_In.
Qed.

Lemma find_some_elem {A} (f : A → bool) (l : list A) (x : A) :
  List.find f l = Some x → x ∈ l ∧ f x = true.
Proof.
  intros H. apply List.find_some in H as [Hin Hf].
  split; [by apply list_elem_of_In | done].
Qed.

(** The state of the third loop of [find_root_object] after a list. *)
Lemma most_descendants_fold (l : list Object) (m0 : Z) (r0 : option Object) :
  ∃ m r,
    foldl most_descendants_step (m0, r0) l = (m, r)
    ∧ (m0 ≤ m)%Z
    ∧ Forall (λ o, (count_descendants o ≤ m)%Z) l
    ∧ ((m = m0 ∧ r = r0)
       ∨ ∃ o, r = Some o ∧ o ∈ l ∧ m = count_descendants o ∧ (m0 < m)%Z).
Proof.
  revert m0 r0. induction l as [|x l IH]; intros m0 r0.
  - exists m0, r0. repeat split; [lia | constructor | by left].
  - cbn [foldl]. unfold most_descendants_step at 2. cbv zeta.
    destruct (Z.ltb_spec m0 (count_descendants x)) as [Hlt | Hge].
    + destruct (IH (count_descendants x) (Some x))
        as (m & r & Heq & Hle & Hall & Hr).
      exists m, r. repeat split; [done | lia | by constructor |].
      right. destruct Hr as [[-> ->] | (o & -> & Ho & -> & Hlt')].
      * exists x. repeat split; [by left | done].
      * exists o. repeat split; [by right | lia].
    + destruct (IH m0 r0) as (m & r & Heq & Hle & Hall & Hr).
      exists m, r. repeat split; [done | done | constructor; [lia | done] |].
      destruct Hr as [[-> ->] | (o & -> & Ho & -> & Hlt')]; [by left|].
      right. exists o. repeat split; [by right | done].
Qed.


(** ** The animation range *)

Lemma frame_lt_Fin (x y : Q) : frame_lt (Fin x) (Fin y) = true ↔ (x < y)%Q.
Proof.
  simpl. rewrite negb_true_iff. split.
  - intros H. apply Qnot_le_lt. intros Hle. apply Qle_bool_iff in Hle.
    congruence.
  - intros H. destruct (Qle_bool y x) eqn:E; [|done].
    apply Qle_bool_iff in E. exfalso. exact (Qlt_not_le _ _ H E).
Qed.

Lemma py_min_Fin (x y : Q) :
  ∃ z, py_min (Fin x) (Fin y) = Fin z ∧ (z = x ∨ z = y)
       ∧ (z <= x)%Q ∧ (z <= y)%Q.
Proof.
  unfold py_min. destruct (frame_lt (Fin y) (Fin x)) eqn:E.
  - apply frame_lt_Fin in E. exists y. repeat split; [by right | lra | lra].
  - exists x. repeat split; [by left | lra |].
    apply Qnot_lt_le. intros H. apply frame_lt_Fin in H. congruence.
Qed.

Lemma py_max_Fin (x y : Q) :
  ∃ z, py_max (Fin x) (Fin y) = Fin z ∧ (z = x ∨ z = y)
       ∧ (x <= z)%Q ∧ (y <= z)%Q.
Proof.
  unfold py_max. destruct (frame_lt (Fin x) (Fin y)) eqn:E.
  - apply frame_lt_Fin in E. exists y. repeat split; [by right | lra | lra].
  - exists x. repeat split; [by left | lra |].
    apply Qnot_lt_le. intros H. apply frame_lt_Fin in H. congruence.
Qed.

Lemma ordered_by_frame_cons (kp : Keyframe) (rest : list Keyframe) :
  ordered_by_frame (kp :: rest) = true →
  ordered_by_frame rest = true
  ∧ ∀ kp', kp' ∈ rest → (fst kp <= fst kp')%Q.
Proof.
  revert kp. induction rest as [|k rest IH]; intros kp H; simpl in H.
  - split; [done|]. intros kp' Hin. by apply elem_of_nil in Hin.
  - apply andb_true_iff in H as [Hle Hrest]. apply Qle_bool_iff in Hle.
    split; [exact Hrest|]. intros kp' Hin.
    apply elem_of_cons in Hin as [-> | Hin]; [done|].
    destruct (IH k Hrest) as [_ Hk]. specialize (Hk kp' Hin). lra.
Qed.

Lemma last_cons_default {A} (x y : A) (l : list A) :
  List.last (y :: l) x = List.last l y.
Proof.
  revert x y. induction l as [|z l IH]; intros x y; [done|].
  change (List.last (y :: z :: l) x) with (List.last (z :: l) x).
  by rewrite !IH.
Qed.

Lemma last_elem_of {A} (x : A) (l : list A) : List.last l x ∈ x :: l.
Proof.
  revert x. induction l as [|y l IH]; intros x; [by left|].
  rewrite last_cons_default. right. apply IH.
Qed.

Lemma ordered_by_frame_last (kp : Keyframe) (rest : list Keyframe) :
  ordered_by_frame (kp :: rest) = true →
  ∀ kp', kp' ∈ kp :: rest → (fst kp' <= fst (List.last rest kp))%Q.
Proof.
  revert kp. induction rest as [|k rest IH]; intros kp H kp' Hin.
  - apply elem_of_cons in Hin as [-> | Hin]; [simpl; lra|].
    by apply elem_of_nil in Hin.
  - destruct (ordered_by_frame_cons _ _ H) as [Hrest Hhead].
    rewrite last_cons_default.
    apply elem_of_cons in Hin as [-> | Hin]; [|by apply IH].
    assert (Hk : k ∈ k :: rest) by (by left).
    pose proof (Hhead k Hk). pose proof (IH k Hrest k Hk). lra.
Qed.

(** One curve more: the inner step of [find_animation_range]. *)
Lemma range_step_spec (frames : list Q) (acc : Frame * Frame)
  (fcurve : FCurve) :
  range_of frames acc →
  ordered_by_frame (keyframe_points fcurve) = true →
  range_of (frames ++ curve_frames fcurve) (range_step acc fcurve).
Proof.
  intros Hacc Hord. unfold range_step, curve_frames.
  destruct (keyframe_points fcurve) as [|kp rest] eqn:Hkps.
  { simpl. by rewrite app_nil_r. }
  right.
  assert (Hlo : ∀ f, f ∈ fst <$> kp :: rest → (fst kp <= f)%Q).
  { intros f Hf. apply list_elem_of_fmap in Hf as (k & -> & Hk).
    apply elem_of_cons in Hk as [-> | Hk]; [lra|].
    by apply (ordered_by_frame_cons _ _ Hord). }
  assert (Hhi : ∀ f, f ∈ fst <$> kp :: rest →
                     (f <= fst (List.last rest kp))%Q).
  { intros f Hf. apply list_elem_of_fmap in Hf as (k & -> & Hk).
    by apply (ordered_by_frame_last _ _ Hord). }
  assert (Hlo_in : fst kp ∈ fst <$> kp :: rest) by (simpl; by left).
  assert (Hhi_in : fst (List.last rest kp) ∈ fst <$> kp :: rest)
    by (apply list_elem_of_fmap_2, last_elem_of).
  destruct Hacc as [[-> ->] | (lo & hi & -> & Hlo' & Hhi' & Hall)].
  - exists (fst kp), (fst (List.last rest kp)). simpl.
    repeat split; auto.
  - simpl fst. simpl snd.
    destruct (py_min_Fin lo (fst kp)) as (mn & -> & Hmn & Hmn1 & Hmn2).
    destruct (py_max_Fin hi (fst (List.last rest kp)))
      as (mx & -> & Hmx & Hmx1 & Hmx2).
    exists mn, mx. split; [done|]. split; [|split].
    + apply elem_of_app. destruct Hmn as [-> | ->]; [by left | by right].
    + apply elem_of_app. destruct Hmx as [-> | ->]; [by left | by right].
    + intros f Hf. apply elem_of_app in Hf as [Hf | Hf].
      * destruct (Hall f Hf). split; lra.
      * pose proof (Hlo f Hf). pose proof (Hhi f Hf). split; lra.
Qed.

Lemma range_curves_spec (curves : list FCurve) (frames : list Q)
  (acc : Frame * Frame) :
  range_of frames acc →
  Forall (λ fc, ordered_by_frame (keyframe_points fc) = true) curves →
  range_of (frames ++ concat (curve_frames <$> curves))
    (foldl range_step acc curves).
Proof.
  revert frames acc.
  induction curves as [|fc curves IH]; intros frames acc Hacc Hord; csimpl.
  - by rewrite app_nil_r.
  - apply Forall_cons in Hord as [Hfc Hord]. rewrite app_assoc.
    apply IH; [|done]. by apply range_step_spec.
Qed.

(** C5: for curves ordered by frame, [find_animation_range] returns the
    least and the greatest frame over all keyframes of all curves of the
    objects that have an action ([(inf, -inf)] when there is no keyframe). *)
Theorem find_animation_range_spec (w : World) (objects : list Object) :
  (∀ obj a fc,
     obj ∈ objects → obj_action w (name obj) = Some a →
     fc ∈ fcurves (get_action w a) →
     ordered_by_frame (keyframe_points fc) = true) →
  range_of (keyframe_frames w objects) (find_animation_range w objects).
Proof.
  unfold find_animation_range, keyframe_frames.
  assert (Hgen : ∀ frames acc,
            range_of frames acc →
            (∀ obj a fc,
               obj ∈ objects → obj_action w (name obj) = Some a →
               fc ∈ fcurves (get_action w a) →
               ordered_by_frame (keyframe_points fc) = true) →
            range_of (frames ++ concat (action_frames w <$> objects))
              (foldl (λ acc obj,
                        match obj_action w (name obj) with
                        | Some a =>
                            foldl range_step acc (fcurves (get_action w a))
                        | None => acc
                        end) acc objects)).
  { induction objects as [|obj objects IH]; intros frames acc Hacc Hord;
      csimpl.
    - by rewrite app_nil_r.
    - rewrite app_assoc. apply IH.
      + unfold action_frames.
        destruct (obj_action w (name obj)) as [a|] eqn:Ha.
        * apply range_curves_spec; [done|]. apply Forall_forall.
          intros fc Hfc. eapply Hord; [by left | done | done].
        * by rewrite app_nil_r.
      + intros obj' a fc Hin. apply Hord. by right. }
  intros Hord. apply (Hgen [] (PosInf, NegInf)); [by left | done].
Qed.

Lemma find_animation_range_spec_witness :
  find_animation_range scene [rig_object; arm_object] = (Fin 1, Fin 20)
  ∧ range_of (keyframe_frames scene [rig_object; arm_object])
      (find_animation_range scene [rig_object; arm_object]).
Proof.
  split; [reflexivity|].
  apply (find_animation_range_spec scene [rig_object; arm_object]).
  intros obj a fc Hobj Ha Hfc.
  apply elem_of_cons in Hobj as [-> | Hobj];
    [|apply elem_of_cons in Hobj as [-> | Hobj];
      [|by apply elem_of_nil in Hobj]];
    vm_compute in Ha; injection Ha as <-;
    change (fc ∈ fcurves rig_action) in Hfc || change (fc ∈ fcurves arm_action) in Hfc;
    repeat (apply elem_of_cons in Hfc as [-> | Hfc]; [reflexivity|]);
    by apply elem_of_nil in Hfc.
Defined.

(** ** Reasoning about computations *)

Lemma inv_ret {A} (I : World → Prop) (a : A) : inv I (ret a).
Proof. intros w Hw. exact Hw. Qed.

Lemma inv_raise {A} (I : World → Prop) (e : Exn) : inv I (raise (A := A) e).
Proof. intros w Hw. exact Hw. Qed.

Lemma inv_modify (I : World → Prop) (f : World → World) :
  (∀ w, I w → I (f w)) → inv I (modify f).
Proof. intros H w Hw. by apply H. Qed.

Lemma inv_bind {A B} (I : World → Prop) (m : M A) (k : A → M B) :
  inv I m → (∀ a, inv I (k a)) → inv I (bind m k).
Proof.
  intros Hm Hk w Hw. unfold bind. specialize (Hm w Hw).
  destruct (m w) as [a w' | e w']; simpl in *; [by apply Hk | done].
Qed.

Lemma inv_bind_get {B} (I : World → Prop) (k : World → M B) :
  (∀ w0, I w0 → inv I (k w0)) → inv I (bind get k).
Proof. intros Hk w Hw. unfold bind, get. by apply Hk. Qed.

Lemma inv_try_catch {A} (I : World → Prop) (m : M A) (h : Exn → M A) :
  inv I m → (∀ e, inv I (h e)) → inv I (try_catch m h).
Proof.
  intros Hm Hh w Hw. unfold try_catch. specialize (Hm w Hw).
  destruct (m w) as [a w' | e w']; simpl in *; [done | by apply Hh].
Qed.

Lemma inv_for {A} (I : World → Prop) (l : list A) (body : A → M unit) :
  (∀ x, x ∈ l → inv I (body x)) → inv I (for_ l body).
Proof.
  induction l as [|x l IH]; intros Hbody; simpl.
  - apply inv_ret.
  - intros w Hw. unfold bind.
    pose proof (Hbody x (list_elem_of_here x l) w Hw) as Hx.
    destruct (body x w) as [[] w' | e w']; simpl in *; [|done].
    apply IH; [|done]. intros y Hy. apply Hbody. by right.
Qed.

Lemma inv_fold_for {A S} (I : World → Prop) (l : list A) (s : S)
  (body : S → A → M S) :
  (∀ s x, x ∈ l → inv I (body s x)) → inv I (fold_for l s body).
Proof.
  revert s. induction l as [|x l IH]; intros s Hbody; simpl.
  - intros w Hw. exact Hw.
  - intros w Hw. unfold bind.
    pose proof (Hbody s x (list_elem_of_here x l) w Hw) as Hx.
    destruct (body s x w) as [s' w' | e w']; simpl in *; [|done].
    apply IH; [|done]. intros s'' y Hy. apply Hbody. by right.
Qed.

Lemma inv_when (I : World → Prop) (b : bool) (m : M unit) :
  inv I m → inv I (when b m).
Proof. intros Hm. destruct b; simpl; [done | intros w Hw; exact Hw]. Qed.

(** A computation that ends normally went through its steps. *)
Lemma bind_Ok {A B} (m : M A) (k : A → M B) (w w' : World) (b : B) :
  bind m k w = Ok b w' ↔ ∃ a w1, m w = Ok a w1 ∧ k a w1 = Ok b w'.
Proof.
  unfold bind. split.
  - destruct (m w) as [a w1 | e w1]; [eauto | discriminate].
  - intros (a & w1 & -> & Hk). exact Hk.
Qed.

Lemma total_ret {A} (a : A) : total (ret a).
Proof. intros w. by exists a, w. Qed.

Lemma total_modify (f : World → World) : total (modify f).
Proof. intros w. by exists tt, (f w). Qed.

Lemma total_bind {A B} (m : M A) (k : A → M B) :
  total m → (∀ a, total (k a)) → total (bind m k).
Proof.
  intros Hm Hk w. destruct (Hm w) as (a & w1 & Hmw).
  destruct (Hk a w1) as (b & w2 & Hkw). exists b, w2.
  apply bind_Ok. eauto.
Qed.

Lemma total_for {A} (l : list A) (body : A → M unit) :
  (∀ x, total (body x)) → total (for_ l body).
Proof.
  intros Hbody. induction l as [|x l IH]; simpl.
  - apply total_ret.
  - apply total_bind; [apply Hbody | intros _; exact IH].
Qed.


Lemma total_try_catch {A} (m : M A) (h : Exn → M A) :
  (∀ e, total (h e)) → total (try_catch m h).
Proof.
  intros Hh w. unfold try_catch.
  destruct (m w) as [a w' | e w']; [by exists a, w' | apply Hh].
Qed.

(** One step of a proof that a computation keeps a property. *)
Ltac inv_step :=
  lazymatch goal with
  | |- inv _ (bind get _) => apply inv_bind_get; intros ? ?
  | |- inv _ (bind _ _) => apply inv_bind; [|intros ?]
  | |- inv _ (ret _) => apply inv_ret
  | |- inv _ (raise _) => apply inv_raise
  | |- inv _ (modify _) => apply inv_modify; intros ? ?
  | |- inv _ (try_catch _ _) => apply inv_try_catch; [|intros ?]
  | |- inv _ (for_ _ _) => apply inv_for; intros ? ?
  | |- inv _ (fold_for _ _ _) => apply inv_fold_for; intros ? ? ?
  | |- inv _ (when _ _) => apply inv_when
  | |- inv _ (if ?b then _ else _) => destruct b eqn:?
  | |- inv _ (match ?x with _ => _ end) => destruct x eqn:?
  end.

(** ** The preparations of [execute] *)

Lemma same_data_refl (w : World) : same_data w w.
Proof. by repeat split. Qed.

Lemma same_data_trans (w1 w2 w3 : World) :
  same_data w1 w2 → same_data w2 w3 → same_data w1 w3.
Proof. unfold same_data. intuition congruence. Qed.

Lemma selected_objects_same_data (w w' : World) :
  same_data w w' → selected_objects w' = selected_objects w.
Proof.
  intros (Ho & _ & Hv & _). unfold selected_objects, obj_data.
  by rewrite Ho, Hv.
Qed.

Lemma animated_in_same_data (w w' : World) (root : Object) :
  same_data w w' → animated_in w' root = animated_in w root.
Proof.
  intros (Ho & _). unfold animated_in, is_animated, obj_action, obj_data.
  by rewrite Ho.
Qed.



Lemma quiet_ret : quiet (ret tt).
Proof. intros w. exists w. split; [done | split; [apply same_data_refl | done]]. Qed.

Lemma quiet_report (l : Level) (m : Message) : quiet (report l m).
Proof. intros w. eexists. split; [reflexivity | by repeat split]. Qed.

Lemma quiet_debug (self : Operator) (l : Level) (m : Message) :
  quiet (debug self l m).
Proof.
  unfold debug, when. destruct (debug_mode self);
    [apply quiet_report | apply quiet_ret].
Qed.

Lemma quiet_ensure_object_mode (host : Host) :
  quiet (ensure_object_mode host).
Proof.
  intros w. unfold ensure_object_mode, try_catch, bind, get, mode_set.
  destruct (active w) as [a|] eqn:Ha.
  2: { exists w. split; [done | split; [apply same_data_refl | done]]. }
  destruct (negb (mode w =? "OBJECT")%string).
  2: { exists w. split; [done | split; [apply same_data_refl | done]]. }
  unfold bind, get. destruct (mode_set_ok host w "OBJECT").
  - eexists. split; [reflexivity | by repeat split].
  - eexists. split; [reflexivity | by repeat split].
Qed.

(** Lines 89-93 make the first selected object active when none is. *)
Lemma ensure_active_spec (self : Operator) (base_objects : list Object)
  (w : World) :
  ∃ w', ensure_active self base_objects w = Ok tt w' ∧ same_data w w'
    ∧ active w' = match active w with
                  | Some obj => Some obj
                  | None => head base_objects
                  end.
Proof.
  unfold ensure_active, bind, get.
  destruct (active w) as [a|] eqn:Hactive.
  { exists w. split; [done | split; [apply same_data_refl | done]]. }
  destruct base_objects as [|first rest].
  { exists w. split; [done | split; [apply same_data_refl | done]]. }
  unfold modify.
  destruct (quiet_debug self INFO (MsgSettingActive (name first))
              (set_active (Some first) w)) as (w' & E & D & Ha).
  exists w'. split; [exact E|]. split; [|exact Ha].
  eapply same_data_trans; [|exact D]. by repeat split.
Qed.

Lemma bind_get {B} (k : World → M B) (w : World) : bind get k w = k w w.
Proof. reflexivity. Qed.

Lemma bind_step {A B} (m : M A) (k : A → M B) (w w1 : World) (a : A) :
  m w = Ok a w1 → bind m k w = k a w1.
Proof. intros H. unfold bind. by rewrite H. Qed.

(** The four ways through [execute]: no selection, no root, no animated
    object, or the combination itself on a world with the same data. *)
Lemma execute_cases (host : Host) (self : Operator) (w : World) :
  (selected_objects w = []
   ∧ ∃ w', execute host self w = Ok CANCELLED w' ∧ same_data w w')
  ∨ (selected_objects w ≠ []
     ∧ find_root_object (selected_objects w) = None
     ∧ ∃ w', execute host self w = Ok CANCELLED w' ∧ same_data w w')
  ∨ (∃ root,
       selected_objects w ≠ []
       ∧ find_root_object (selected_objects w) = Some root
       ∧ animated_in w root = []
       ∧ ∃ w', execute host self w = Ok CANCELLED w' ∧ same_data w w')
  ∨ (∃ root w1,
       selected_objects w ≠ []
       ∧ find_root_object (selected_objects w) = Some root
       ∧ animated_in w root ≠ []
       ∧ same_data w w1
       ∧ active w1 = match active w with
                     | Some obj => Some obj
                     | None => head (selected_objects w)
                     end
       ∧ execute host self w
         = run_combination host self (context_mode host w) (active w)
             (area_type w) (selected_objects w) root (animated_in w root) w1).
Proof.
  unfold execute. rewrite bind_get.
  destruct (quiet_debug self INFO MsgStarting w) as (w1 & E1 & D1 & A1).
  rewrite (bind_step _ _ _ _ _ E1), bind_get.
  rewrite (selected_objects_same_data _ _ D1).
  destruct (selected_objects w) as [|first rest] eqn:Hsel.
  { left. split; [done|].
    destruct (quiet_report ERROR MsgSelectObject w1) as (w2 & E2 & D2 & _).
    exists w2. rewrite (bind_step _ _ _ _ _ E2).
    split; [done | by eapply same_data_trans]. }
  right.
  destruct (ensure_active_spec self (first :: rest) w1)
    as (w2 & E2 & D2 & A2).
  rewrite (bind_step _ _ _ _ _ E2).
  destruct (quiet_ensure_object_mode host w2) as (w3 & E3 & D3 & A3).
  rewrite (bind_step _ _ _ _ _ E3).
  assert (D13 : same_data w w3)
    by (eapply same_data_trans; [|exact D3];
        eapply same_data_trans; [exact D1 | exact D2]).
  destruct (find_root_object (first :: rest)) as [root|] eqn:Hroot.
  2: { left. split; [done|]. split; [done|].
       destruct (quiet_report ERROR MsgNoRoot w3) as (w4 & E4 & D4 & _).
       exists w4. rewrite (bind_step _ _ _ _ _ E4).
       split; [done | by eapply same_data_trans]. }
  right.
  destruct (quiet_debug self INFO (MsgUsingRoot (name root)) w3)
    as (w4 & E4 & D4 & A4).
  rewrite (bind_step _ _ _ _ _ E4).
  destruct (quiet_debug self INFO
              (MsgFoundObjects (length (get_hierarchy_objects root))) w4)
    as (w5 & E5 & D5 & A5).
  rewrite (bind_step _ _ _ _ _ E5), bind_get.
  assert (D15 : same_data w w5)
    by (eapply same_data_trans; [|exact D5];
        eapply same_data_trans; [exact D13 | exact D4]).
  fold (animated_in w5 root). rewrite (animated_in_same_data _ _ _ D15).
  destruct (animated_in w root) as [|obj objs] eqn:Hanim.
  { left. exists root. split; [done|]. split; [done|]. split; [done|].
    destruct (quiet_report WARNING MsgNoAnimated w5) as (w6 & E6 & D6 & _).
    exists w6. rewrite (bind_step _ _ _ _ _ E6).
    split; [done | by eapply same_data_trans]. }
  right. exists root, w5. split; [done|]. split; [done|]. rewrite Hanim.
  split; [discriminate|]. split; [done|]. split; [|reflexivity].
  rewrite A5, A4, A3, A2, A1. done.
Qed.

(** ** What the combination leaves alone *)

Ltac inv_unfold :=
  unfold run_combination, create_standalone_action, run_passes, first_pass,
    first_pass_channel, second_pass, second_pass_channel, create_driver,
    remove_original, copy_keyframes, fcurves_new, keyframe_points_insert,
    actions_new, update_action, index_component, debug, report, mode_set,
    restore_state, restore_selection, restore_active, deselect_all,
    set_scene_range, to_int, ensure_active, ensure_object_mode.

Ltac inv_auto := repeat first [inv_step | progress inv_unfold].

Lemma create_standalone_action_editor (host : Host) (self : Operator)
  (root : Object) (animated : list Object) (mn mx : Frame) (w0 : World) :
  inv (same_editor w0)
    (create_standalone_action host self root animated mn mx).
Proof.
  inv_auto; unfold same_editor in *; simpl; intuition congruence.
Qed.



(** The value [create_standalone_action] returns is [FINISHED]. *)
Lemma create_standalone_action_finished (host : Host) (self : Operator)
  (root : Object) (animated : list Object) (mn mx : Frame) (w w' : World)
  (result : Status) :
  create_standalone_action host self root animated mn mx w = Ok result w' →
  result = FINISHED.
Proof.
  unfold create_standalone_action, run_passes. intros H.
  repeat (apply bind_Ok in H as (? & ? & _ & H); cbv beta zeta in H).
  by injection H as <- _.
Qed.

Lemma total_mode_set_guarded (host : Host) (m : string) :
  total (try_catch (mode_set host m) (λ _, ret tt)).
Proof. apply total_try_catch. intros _. apply total_ret. Qed.

(** Restoring the editor state never raises. *)
Lemma restore_state_total (host : Host) (original_mode : string)
  (original_active : option Object) (original_area : string)
  (original_selected : list Object) :
  total (restore_state host original_mode original_active original_area
           original_selected).
Proof.
  unfold restore_state, deselect_all, restore_selection, restore_active.
  apply total_bind; [apply total_modify | intros _].
  apply total_bind.
  { apply total_for. intros obj w. unfold bind, get.
    destruct (bool_decide _); [apply total_modify | apply total_ret]. }
  intros _. apply total_bind.
  { destruct original_active as [obj|]; [|apply total_ret].
    intros w. unfold bind, get.
    destruct (bool_decide _); [apply total_modify | apply total_ret]. }
  intros _. apply total_bind; [apply total_modify | intros _].
  apply total_mode_set_guarded.
Qed.

(** The combination ends with [FINISHED] or raises. *)
Lemma run_combination_finished (host : Host) (self : Operator)
  (original_mode : string) (original_active : option Object)
  (original_area : string) (original_selected : list Object)
  (root : Object) (animated : list Object) (w w' : World) (result : Status) :
  run_combination host self original_mode original_active original_area
    original_selected root animated w = Ok result w' →
  result = FINISHED.
Proof.
  unfold run_combination. intros H.
  apply bind_Ok in H as (? & w1 & _ & H). rewrite bind_get in H.
  destruct (frame_range self w1 _) as [mn mx].
  apply bind_Ok in H as (? & w2 & _ & H).
  apply bind_Ok in H as (r & w3 & Hr & H).
  apply create_standalone_action_finished in Hr as ->.
  apply bind_Ok in H as (? & w4 & _ & H). by injection H as <- _.
Qed.

(** ** The prerequisites of [execute] *)

(** C3: [execute] returns [CANCELLED] exactly when nothing is selected, no
    root is found, or no object of the hierarchy is animated; the world it
    leaves then has the actions and the objects it started with: no master
    action was created. *)
Theorem execute_cancelled_iff (host : Host) (self : Operator) (w : World) :
  ((selected_objects w = []
    ∨ find_root_object (selected_objects w) = None
    ∨ ∃ root, find_root_object (selected_objects w) = Some root
              ∧ animated_in w root = [])
   ↔ ∃ w', execute host self w = Ok CANCELLED w')
  ∧ ∀ w', execute host self w = Ok CANCELLED w' →
          actions w' = actions w ∧ objects w' = objects w.
Proof.
  destruct (execute_cases host self w)
    as [(Hsel & w1 & E & D)
       | [(Hsel & Hroot & w1 & E & D)
         | [(root & Hsel & Hroot & Hanim & w1 & E & D)
           | (root & w1 & Hsel & Hroot & Hanim & D & _ & E)]]].
  - split.
    + split; [intros _; by exists w1 | intros _; by left].
    + intros w' E'. rewrite E in E'. injection E' as <-.
      destruct D as (Ho & Ha & _). done.
  - split.
    + split; [intros _; by exists w1 | intros _; right; by left].
    + intros w' E'. rewrite E in E'. injection E' as <-.
      destruct D as (Ho & Ha & _). done.
  - split.
    + split; [intros _; by exists w1 | intros _; right; right; by exists root].
    + intros w' E'. rewrite E in E'. injection E' as <-.
      destruct D as (Ho & Ha & _). done.
  - assert (Hnot : ∀ w', execute host self w ≠ Ok CANCELLED w').
    { intros w' E'. rewrite E in E'.
      apply run_combination_finished in E'. discriminate. }
    split.
    + split.
      * intros [Hs | [Hr | (root' & Hr & Ha)]]; [done | congruence |].
        rewrite Hroot in Hr. injection Hr as <-. done.
      * intros (w' & E'). by destruct (Hnot w').
    + intros w' E'. by destruct (Hnot w').
Qed.

(** ** The frame range of the scene *)









(** ** The data of the objects under the updates of the operator *)

Lemma obj_data_update_obj (m : string) (f : ObjectData → ObjectData)
  (w : World) (n : string) :
  obj_data (update_obj m f w) n
  = if decide (m = n) then f (obj_data w m) else obj_data w n.
Proof.
  unfold obj_data at 1, update_obj. simpl. rewrite lookup_insert.
  by case_decide.
Qed.

Lemma obj_data_set_actions (f : list Action → list Action) (w : World)
  (n : string) : obj_data (set_actions f w) n = obj_data w n.
Proof. reflexivity. Qed.

Lemma obj_data_add_report (l : Level) (m : Message) (w : World)
  (n : string) : obj_data (add_report l m w) n = obj_data w n.
Proof. reflexivity. Qed.

Lemma obj_data_set_frame_current (f : Z) (w : World) (n : string) :
  obj_data (set_frame_current f w) n = obj_data w n.
Proof. reflexivity. Qed.

Lemma obj_data_set_active (a : option Object) (w : World) (n : string) :
  obj_data (set_active a w) n = obj_data w n.
Proof. reflexivity. Qed.

Lemma obj_data_set_area_type (a : string) (w : World) (n : string) :
  obj_data (set_area_type a w) n = obj_data w n.
Proof. reflexivity. Qed.

Lemma obj_data_set_mode (m : string) (w : World) (n : string) :
  obj_data (set_mode m w) n = obj_data w n.
Proof. reflexivity. Qed.

Lemma data_action_ensure (d : ObjectData) :
  data_action (ensure_animation_data d) = data_action d.
Proof.
  unfold data_action, ensure_animation_data.
  destruct (animation_data d) eqn:E; simpl; by rewrite ?E.
Qed.

Lemma data_nla_tracks_ensure (d : ObjectData) :
  data_nla_tracks (ensure_animation_data d) = data_nla_tracks d.
Proof.
  unfold data_nla_tracks, ensure_animation_data.
  destruct (animation_data d) eqn:E; simpl; by rewrite ?E.
Qed.

Lemma data_drivers_ensure (d : ObjectData) :
  data_drivers (ensure_animation_data d) = data_drivers d.
Proof.
  unfold data_drivers, ensure_animation_data.
  destruct (animation_data d) eqn:E; simpl; by rewrite ?E.
Qed.

Lemma data_action_set_drivers (f : list Driver → list Driver)
  (d : ObjectData) :
  data_action (update_anim (set_drivers f) d) = data_action d.
Proof. unfold data_action, update_anim. simpl. by destruct (animation_data d). Qed.

Lemma data_nla_tracks_set_drivers (f : list Driver → list Driver)
  (d : ObjectData) :
  data_nla_tracks (update_anim (set_drivers f) d) = data_nla_tracks d.
Proof.
  unfold data_nla_tracks, update_anim. simpl. by destruct (animation_data d).
Qed.

Lemma data_action_set_custom_prop (k : string) (v : Q) (d : ObjectData) :
  data_action (set_custom_prop k v d) = data_action d.
Proof. reflexivity. Qed.

Lemma data_nla_tracks_set_custom_prop (k : string) (v : Q) (d : ObjectData) :
  data_nla_tracks (set_custom_prop k v d) = data_nla_tracks d.
Proof. reflexivity. Qed.

Lemma data_drivers_set_custom_prop (k : string) (v : Q) (d : ObjectData) :
  data_drivers (set_custom_prop k v d) = data_drivers d.
Proof. reflexivity. Qed.

Lemma data_action_set_action (a : nat) (d : ObjectData) :
  data_action (update_anim (set_action (Some a)) (ensure_animation_data d))
  = Some a.
Proof.
  unfold data_action, update_anim, ensure_animation_data.
  destruct (animation_data d) eqn:E; simpl; by rewrite ?E.
Qed.

Create Rewrite HintDb world.

#[export] Hint Rewrite obj_data_update_obj obj_data_set_actions
  obj_data_add_report obj_data_set_frame_current obj_data_set_active
  obj_data_set_area_type obj_data_set_mode data_action_ensure
  data_nla_tracks_ensure data_drivers_ensure data_action_set_drivers
  data_nla_tracks_set_drivers data_action_set_custom_prop
  data_nla_tracks_set_custom_prop data_drivers_set_custom_prop : world.

(** The lines before the passes end normally, in the world
    [with_root_action]. *)
Lemma create_standalone_action_unfold (host : Host) (self : Operator)
  (root : Object) (animated : list Object) (mn mx : Frame) (w : World) :
  create_standalone_action host self root animated mn mx w
  = run_passes host self root animated (length (actions w))
      (frame_current w)
      (collect_animation_data (with_master self w) animated)
      (with_root_action self root w).
Proof.
  unfold create_standalone_action, with_root_action, with_master, actions_new,
    update_action, debug, when, report.
  destruct (debug_mode self); reflexivity.
Qed.

(** ** The original actions *)

Lemma with_root_action_root (self : Operator) (root : Object) (w : World) :
  obj_action (with_root_action self root w) (name root)
  = Some (length (actions w)).
Proof.
  unfold with_root_action, obj_action. autorewrite with world.
  rewrite decide_True by done. autorewrite with world.
  rewrite decide_True by done. apply data_action_set_action.
Qed.

Lemma with_root_action_other (self : Operator) (root : Object) (w : World)
  (n : string) :
  n ≠ name root → obj_data (with_root_action self root w) n = obj_data w n.
Proof.
  intros Hn. unfold with_root_action, with_master.
  autorewrite with world. rewrite decide_False by done.
  autorewrite with world. rewrite decide_False by done.
  by destruct (debug_mode self).
Qed.

Ltac world_leaf :=
  unfold obj_action, obj_nla_tracks, obj_drivers in *;
  autorewrite with world; repeat case_decide; subst;
  autorewrite with world; try done.

Lemma remove_tracks_nil (tracks : list string) : remove_tracks tracks = [].
Proof. induction tracks as [|t tracks IH]; [done | exact IH]. Qed.

Lemma is_animated_true (w : World) (obj : Object) :
  is_animated w obj = true ↔ is_Some (obj_action w (name obj)).
Proof. unfold is_animated. apply bool_decide_eq_true. Qed.

(** The world after the two assignments of lines 335-341. *)
Lemma remove_original_spec (root obj : Object) (w : World) :
  ∃ w', remove_original root obj w = Ok tt w'
    ∧ ∀ n,
        (n = name obj → name obj ≠ name root →
         is_Some (obj_action w n) →
         obj_action w' n = None ∧ obj_nla_tracks w' n = [])
        ∧ ((n ≠ name obj ∨ n = name root ∨ obj_action w n = None) →
           obj_action w' n = obj_action w n
           ∧ obj_nla_tracks w' n = obj_nla_tracks w n).
Proof.
  unfold remove_original, bind, get, modify.
  destruct (negb (bool_decide (name obj = name root)) && is_animated w obj)
    eqn:Hcond.
  - apply andb_true_iff in Hcond as [Hroot Hanim].
    apply negb_true_iff, bool_decide_eq_false in Hroot.
    apply is_animated_true in Hanim.
    eexists. split; [reflexivity|]. intros n. split.
    + intros -> _ _. unfold obj_action, obj_nla_tracks.
      autorewrite with world. rewrite !decide_True by done.
      unfold data_action, data_nla_tracks, update_anim. simpl.
      destruct (animation_data (obj_data w (name obj))); simpl;
        [by rewrite remove_tracks_nil | done].
    + intros [Hn | [-> | Hnone]].
      * unfold obj_action, obj_nla_tracks. autorewrite with world.
        by rewrite !decide_False by done.
      * unfold obj_action, obj_nla_tracks. autorewrite with world.
        by rewrite !decide_False by done.
      * destruct (decide (name obj = n)) as [<- | Hn].
        { rewrite Hnone in Hanim. by destruct Hanim. }
        unfold obj_action, obj_nla_tracks. autorewrite with world.
        by rewrite !decide_False by done.
  - eexists. split; [reflexivity|]. intros n. split; [|done].
    intros -> Hroot Hsome. apply is_animated_true in Hsome.
    rewrite Hsome, andb_true_r in Hcond.
    apply negb_false_iff, bool_decide_eq_true in Hcond. done.
Qed.

(** The loop of lines 332-341: it clears the animated objects other than
    the root and leaves the others as they are. *)
Lemma remove_loop_spec (root : Object) (l : list Object) (w : World) :
  ∃ w', for_ l (remove_original root) w = Ok tt w'
    ∧ ∀ n,
        (n ≠ name root → n ∈ name <$> l → is_Some (obj_action w n) →
         obj_action w' n = None ∧ obj_nla_tracks w' n = [])
        ∧ (obj_action w n = None →
           obj_action w' n = None
           ∧ obj_nla_tracks w' n = obj_nla_tracks w n)
        ∧ ((n = name root ∨ n ∉ name <$> l) →
           obj_action w' n = obj_action w n
           ∧ obj_nla_tracks w' n = obj_nla_tracks w n).
Proof.
  revert w. induction l as [|x l IH]; intros w.
  { exists w. split; [done|]. intros n. split; [|done].
    intros _ Hin. by apply elem_of_nil in Hin. }
  destruct (remove_original_spec root x w) as (w1 & E1 & H1).
  destruct (IH w1) as (w' & E' & H'). exists w'. split.
  { simpl. by rewrite (bind_step _ _ _ _ _ E1). }
  intros n. destruct (H1 n) as [Hclear Hkeep].
  destruct (H' n) as (Hloop & Hnone & Hout). split; [|split].
  - intros Hroot Hin Hsome. csimpl in Hin.
    destruct (decide (n = name x)) as [-> | Hn].
    + destruct (Hclear eq_refl Hroot Hsome) as [Ha Ht].
      destruct (Hnone Ha) as [Ha' Ht']. by rewrite Ha', Ht'.
    + apply elem_of_cons in Hin as [Hin | Hin]; [done|].
      destruct Hkeep as [Ha Ht]; [by left|].
      apply Hloop; [done | done | by rewrite Ha].
  - intros Hn. destruct Hkeep as [Ha Ht]; [by right; right|].
    rewrite Ha in Hnone. destruct (Hnone Hn) as [Ha' Ht'].
    by rewrite Ha', Ht', Ht.
  - intros Hn. destruct Hkeep as [Ha Ht].
    { destruct Hn as [-> | Hn]; [right; by left | left].
      intros ->. apply Hn. csimpl. by left. }
    destruct Hout as [Ha' Ht'].
    { destruct Hn as [-> | Hn]; [by left | right].
      intros Hin. apply Hn. csimpl. by right. }
    by rewrite Ha', Ht', Ha, Ht.
Qed.

Lemma inv_forall {A X} (Q : X → World → Prop) (m : M A) :
  (∀ x, inv (Q x) m) → inv (λ w, ∀ x, Q x w) m.
Proof. intros H w Hw x. by apply H. Qed.

(** A run of the passes raises in one of the two passes, or goes through
    the removal loop and ends with [FINISHED]; a property the two passes
    keep holds where they end. *)
Lemma run_passes_cases (host : Host) (self : Operator) (root : Object)
  (animated : list Object) (master : nat) (frame : Z)
  (ad : Dict.t string (Dict.t string (Dict.t nat (list Keyframe))))
  (P : World → Prop) (w : World) :
  inv P (first_pass host self master (name root) ad) →
  inv P (second_pass host self (name root) ad) →
  P w →
  (∃ e w1, run_passes host self root animated master frame ad w = Raise e w1
           ∧ P w1)
  ∨ (∃ c w0 w1 w2,
       first_pass host self master (name root) ad w = Ok c w0
       ∧ second_pass host self (name root) ad w0 = Ok tt w1
       ∧ P w1
       ∧ when (negb (keep_original_actions self))
           (for_ animated (remove_original root)) w1 = Ok tt w2
       ∧ run_passes host self root animated master frame ad w
         = Ok FINISHED
             (add_report INFO (MsgCreated (length c))
                (set_frame_current frame w2))).
Proof.
  intros Hfirst Hsecond Hw. unfold run_passes, bind.
  specialize (Hfirst w Hw).
  destruct (first_pass host self master (name root) ad w)
    as [c w0 | e w0] eqn:E0; simpl in Hfirst; [|left; by exists e, w0].
  specialize (Hsecond w0 Hfirst).
  destruct (second_pass host self (name root) ad w0)
    as [[] w1 | e w1] eqn:E1; simpl in Hsecond; [|left; by exists e, w1].
  right. exists c, w0, w1.
  destruct (keep_original_actions self); simpl.
  - exists w1. by repeat split.
  - destruct (remove_loop_spec root animated w1) as (w2 & E2 & _).
    exists w2. rewrite E2. by repeat split.
Qed.

(** C9: the root gets the master action in either case; with
    [keep_original_actions] the action and the NLA tracks of every other
    object are left as they were; without it, a run that finishes has
    cleared both for every animated object other than the root. *)
Theorem keep_original_actions_spec (host : Host) (self : Operator)
  (root : Object) (animated : list Object) (mn mx : Frame) (w : World) :
  let r := create_standalone_action host self root animated mn mx w in
  obj_action (world_of r) (name root) = Some (length (actions w))
  ∧ (keep_original_actions self = true →
     ∀ n, n ≠ name root →
          obj_action (world_of r) n = obj_action w n
          ∧ obj_nla_tracks (world_of r) n = obj_nla_tracks w n)
  ∧ (keep_original_actions self = false →
     ∀ w', r = Ok FINISHED w' →
     ∀ obj, obj ∈ animated → name obj ≠ name root →
            is_animated w obj = true →
            obj_action w' (name obj) = None
            ∧ obj_nla_tracks w' (name obj) = []).
Proof.
  cbv zeta. rewrite create_standalone_action_unfold.
  set (w0 := with_root_action self root w).
  set (ad := collect_animation_data (with_master self w) animated).
  pose (P := λ w1 : World,
          ∀ n, obj_action w1 n = obj_action w0 n
               ∧ obj_nla_tracks w1 n = obj_nla_tracks w0 n).
  assert (Hroot : obj_action w0 (name root) = Some (length (actions w)))
    by apply with_root_action_root.
  assert (Hother : ∀ n, n ≠ name root →
            obj_action w0 n = obj_action w n
            ∧ obj_nla_tracks w0 n = obj_nla_tracks w n).
  { intros n Hn. unfold obj_action, obj_nla_tracks, w0.
    by rewrite with_root_action_other. }
  destruct (run_passes_cases host self root animated (length (actions w))
              (frame_current w) ad P w0)
    as [(e & w1 & -> & H1) | (c & w0' & w1 & w2 & _ & _ & H1 & E2 & ->)].
  { apply inv_forall. intros n. inv_auto; world_leaf. }
  { apply inv_forall. intros n. inv_auto; world_leaf. }
  { intros n. done. }
  all: unfold P in H1.
  - cbn [world_of]. split; [by rewrite (proj1 (H1 _))|]. split; [|done].
    intros _ n Hn. destruct (H1 n) as [-> ->]. by apply Hother.
  - cbn [world_of].
    assert (Hfinal : ∀ l m f n,
              obj_action (add_report l m (set_frame_current f w2)) n
              = obj_action w2 n
              ∧ obj_nla_tracks (add_report l m (set_frame_current f w2)) n
                = obj_nla_tracks w2 n) by done.
    destruct (keep_original_actions self) eqn:Hkeep; simpl in E2.
    + injection E2 as <-.
      split; [by rewrite (proj1 (Hfinal _ _ _ _)), (proj1 (H1 _))|].
      split; [|done]. intros _ n Hn.
      destruct (Hfinal INFO (MsgCreated (length c)) (frame_current w) n)
        as [-> ->].
      destruct (H1 n) as [-> ->]. by apply Hother.
    + destruct (remove_loop_spec root animated w1) as (w2' & E2' & Hloop).
      rewrite E2' in E2. injection E2 as <-.
      split; [|split; [done|]].
      * rewrite (proj1 (Hfinal _ _ _ _)).
        destruct (Hloop (name root)) as (_ & _ & [-> _]); [by left|].
        by rewrite (proj1 (H1 _)).
      * intros _ w' Hw' obj Hobj Hname Hanim. injection Hw' as <-.
        destruct (Hfinal INFO (MsgCreated (length c)) (frame_current w)
                    (name obj)) as [-> ->].
        destruct (Hloop (name obj)) as (Hclear & _).
        apply Hclear; [done | by apply list_elem_of_fmap_2 |].
        rewrite (proj1 (H1 _)), (proj1 (Hother _ Hname)).
        by apply is_animated_true.
Qed.

(** ** Restoring the editor state *)

Lemma objects_update_obj_present (m : string) (f : ObjectData → ObjectData)
  (w : World) (n : string) :
  is_Some (objects w !! n) → is_Some (objects (update_obj m f w) !! n).
Proof.
  intros H. unfold update_obj. simpl. rewrite lookup_insert.
  by case_decide.
Qed.

(** Objects stay in [bpy.data.objects] through the combination. *)
Lemma create_standalone_action_present (host : Host) (self : Operator)
  (root : Object) (animated : list Object) (mn mx : Frame) (n : string) :
  inv (λ w, is_Some (objects w !! n))
    (create_standalone_action host self root animated mn mx).
Proof. inv_auto; try done; by apply objects_update_obj_present. Qed.

Lemma select_deselect_all (w : World) (n : string) :
  select (obj_data (set_objects (fmap (set_select false)) w) n) = false.
Proof.
  unfold obj_data. simpl. rewrite lookup_fmap.
  by destruct (objects w !! n).
Qed.

Lemma present_deselect_all (w : World) (n : string) :
  is_Some (objects (set_objects (fmap (set_select false)) w) !! n)
  ↔ is_Some (objects w !! n).
Proof. simpl. rewrite lookup_fmap. apply fmap_is_Some. Qed.

(** The loop of lines 152-154 selects the listed objects that exist. *)
Lemma restore_selection_spec (l : list Object) (w : World) :
  ∃ w', restore_selection l w = Ok tt w'
    ∧ same_editor w w'
    ∧ (∀ n, is_Some (objects w' !! n) ↔ is_Some (objects w !! n))
    ∧ ∀ n, select (obj_data w' n) = true
           ↔ select (obj_data w n) = true
             ∨ (n ∈ name <$> l ∧ is_Some (objects w !! n)).
Proof.
  unfold restore_selection. revert w.
  induction l as [|x l IH]; intros w.
  { exists w. split; [done|]. split; [by repeat split|]. split; [done|].
    intros n. split; [by left|]. intros [H | [H _]]; [done|].
    by apply elem_of_nil in H. }
  cbn [for_]. unfold bind at 1. unfold bind at 1, get.
  destruct (bool_decide (is_Some (objects w !! name x))) eqn:Hx.
  - apply bool_decide_eq_true in Hx. unfold modify.
    destruct (IH (update_obj (name x) (set_select true) w))
      as (w' & E & D & Hp & Hs).
    exists w'. split; [exact E|]. split; [exact D|]. split.
    + intros n. rewrite Hp. unfold update_obj. simpl. rewrite lookup_insert.
      case_decide; [subst; by split | done].
    + intros n. rewrite Hs. autorewrite with world. csimpl.
      rewrite elem_of_cons. unfold update_obj. simpl.
      rewrite lookup_insert.
      destruct (decide (name x = n)) as [<- | Hn]; simpl.
      * split; [intros _; right; split; [by left | done] | by left].
      * split.
        -- intros [H | [H1 H2]]; [by left | right; split; [by right | done]].
        -- intros [H | [[H1 | H1] H2]]; [by left | congruence |].
           right. by split.
  - apply bool_decide_eq_false in Hx.
    destruct (IH w) as (w' & E & D & Hp & Hs).
    exists w'. split; [exact E|]. split; [exact D|]. split; [exact Hp|].
    intros n. rewrite Hs. csimpl. rewrite elem_of_cons. split.
    + intros [H | [H1 H2]]; [by left | right; split; [by right | done]].
    + intros [H | [[-> | H1] H2]]; [by left | done | right; by split].
Qed.

(** Lines 150-163 never raise; they select the listed objects that exist,
    make the original active object active again when there was one and it
    exists, and assign the original area type. *)
Lemma restore_state_spec (host : Host) (original_mode : string)
  (original_active : option Object) (original_area : string)
  (original_selected : list Object) (w : World) :
  ∃ w', restore_state host original_mode original_active original_area
          original_selected w = Ok tt w'
    ∧ view_layer w' = view_layer w
    ∧ frame_current w' = frame_current w
    ∧ area_type w' = original_area
    ∧ active w'
      = match original_active with
        | Some obj =>
            if bool_decide (is_Some (objects w !! name obj))
            then Some obj else active w
        | None => active w
        end
    ∧ ∀ n, select (obj_data w' n) = true
           ↔ n ∈ name <$> original_selected ∧ is_Some (objects w !! n).
Proof.
  unfold restore_state, deselect_all.
  set (w1 := set_objects (fmap (set_select false)) w).
  rewrite (bind_step _ _ w w1 tt) by reflexivity.
  destruct (restore_selection_spec original_selected w1)
    as (w2 & E2 & D2 & P2 & S2).
  rewrite (bind_step _ _ _ _ _ E2).
  destruct D2 as (Hv & Ha & _ & _ & _ & _ & Hf).
  assert (Hsel : ∀ n, select (obj_data w2 n) = true
                      ↔ n ∈ name <$> original_selected
                        ∧ is_Some (objects w !! n)).
  { intros n. rewrite S2. unfold w1 at 1. rewrite select_deselect_all.
    unfold w1. rewrite present_deselect_all. split; [|by right].
    by intros [H | H]. }
  assert (Hpresent : ∀ n, is_Some (objects w2 !! n)
                          ↔ is_Some (objects w !! n)).
  { intros n. rewrite P2. apply present_deselect_all. }
  set (w3 := match original_active with
             | Some obj =>
                 if bool_decide (is_Some (objects w2 !! name obj))
                 then set_active (Some obj) w2 else w2
             | None => w2
             end).
  assert (E3 : restore_active original_active w2 = Ok tt w3).
  { unfold restore_active, w3. destruct original_active as [obj|]; [|done].
    unfold bind, get. by destruct (bool_decide _). }
  rewrite (bind_step _ _ _ _ _ E3).
  assert (H3 : objects w3 = objects w2 ∧ view_layer w3 = view_layer w2
               ∧ frame_current w3 = frame_current w2
               ∧ active w3
                 = match original_active with
                   | Some obj =>
                       if bool_decide (is_Some (objects w !! name obj))
                       then Some obj else active w
                   | None => active w
                   end).
  { unfold w3. destruct original_active as [obj|];
      [|repeat split; by rewrite ?Ha].
    rewrite (bool_decide_ext _ _ (Hpresent (name obj))).
    destruct (bool_decide (is_Some (objects w !! name obj)));
      repeat split; simpl; by rewrite ?Ha. }
  destruct H3 as (Ho3 & Hv3 & Hf3 & Ha3).
  rewrite (bind_step _ _ w3 (set_area_type original_area w3) tt)
    by reflexivity.
  unfold try_catch, mode_set, bind, get, modify.
  destruct (mode_set_ok host _ original_mode); eexists;
    (split; [reflexivity|]); simpl;
    (split; [by rewrite Hv3, Hv|]); (split; [by rewrite Hf3, Hf|]);
    (split; [done|]); (split; [exact Ha3|]); intros n;
    rewrite <- Hsel; unfold obj_data; simpl; by rewrite Ho3.
Qed.

Lemma filter_ext_elem {A} (P Q : A → Prop) `{!∀ x, Decision (P x)}
  `{!∀ x, Decision (Q x)} (l : list A) :
  (∀ x, x ∈ l → P x ↔ Q x) → filter P l = filter Q l.
Proof.
  induction l as [|x l IH]; intros Hext; [done|].
  rewrite !filter_cons.
  assert (Hx : P x ↔ Q x) by (apply Hext; by left).
  rewrite IH by (intros y Hy; apply Hext; by right).
  destruct (decide (P x)), (decide (Q x)); tauto || done.
Qed.

Lemma set_scene_range_data (self : Operator) (mn mx : Frame) (w0 : World) :
  inv (λ w, objects w = objects w0 ∧ view_layer w = view_layer w0
            ∧ active w = active w0 ∧ area_type w = area_type w0
            ∧ frame_current w = frame_current w0)
    (set_scene_range self mn mx).
Proof. inv_auto; simpl; done. Qed.

(** C10 (as amended): a run that finishes leaves the selection, the area
    type and the current frame as they were, and the active object too when
    there was one; when there was none, the first selected object is left
    active. *)
Theorem execute_restores_state (host : Host) (self : Operator)
  (w w' : World) :
  execute host self w = Ok FINISHED w' →
  selected_objects w' = selected_objects w
  ∧ area_type w' = area_type w
  ∧ frame_current w' = frame_current w
  ∧ active w' = match active w with
                | Some obj => Some obj
                | None => head (selected_objects w)
                end.
Proof.
  intros H.
  destruct (execute_cases host self w)
    as [(_ & w1 & E & _)
       | [(_ & _ & w1 & E & _)
         | [(root & _ & _ & _ & w1 & E & _)
           | (root & w1 & _ & _ & _ & D & A & E)]]];
    try (rewrite E in H; discriminate).
  rewrite E in H. clear E. unfold run_combination in H.
  destruct (quiet_debug self INFO
              (MsgFoundAnimated (length (animated_in w root))) w1)
    as (w2 & E2 & D2 & A2).
  rewrite (bind_step _ _ _ _ _ E2), bind_get in H.
  destruct (frame_range self w2 _) as [mn mx].
  apply bind_Ok in H as ([] & w3 & E3 & H).
  apply bind_Ok in H as (r & w4 & E4 & H).
  apply bind_Ok in H as ([] & w5 & E5 & H). injection H as -> <-.
  pose proof (set_scene_range_data self mn mx w2 w2) as H3.
  rewrite E3 in H3. simpl in H3.
  destruct H3 as (Ho3 & Hv3 & Ha3 & Har3 & Hf3); [done|].
  pose proof (create_standalone_action_editor host self root
                (animated_in w root) mn mx w3 w3) as H4.
  rewrite E4 in H4. simpl in H4.
  destruct H4 as (Hv4 & Ha4 & _ & _ & _ & _ & Hf4); [by repeat split|].
  destruct (restore_state_spec host (context_mode host w) (active w)
              (area_type w) (selected_objects w) w4)
    as (w5' & E5' & Hv5 & Hf5 & Har5 & Ha5 & Hs5).
  rewrite E5' in E5. injection E5 as <-.
  destruct D as (Ho1 & _ & Hv1 & _ & _ & _ & Hf1).
  destruct D2 as (Ho2 & _ & Hv2 & _ & _ & _ & Hf2).
  split; [|split; [done|split]].
  - unfold selected_objects at 1.
    rewrite Hv5, Hv4, Hv3, Hv2, Hv1. unfold selected_objects.
    apply filter_ext_elem. intros obj Hobj. rewrite Hs5. split.
    + intros [Hin _]. apply list_elem_of_fmap in Hin as (obj' & -> & Hin).
      unfold selected_objects in Hin.
      by apply list_elem_of_filter in Hin as [Hin _].
    + intros Hsel. split.
      * apply list_elem_of_fmap_2. unfold selected_objects.
        by apply list_elem_of_filter.
      * pose proof (create_standalone_action_present host self root
                      (animated_in w root) mn mx (name obj) w3) as Hp.
        rewrite E4 in Hp. simpl in Hp. apply Hp.
        rewrite Ho3, Ho2, Ho1. unfold obj_data in Hsel.
        by destruct (objects w !! name obj).
  - by rewrite Hf5, Hf4, Hf3, Hf2, Hf1.
  - rewrite Ha5, Ha4, Ha3, A2, A.
    destruct (active w) as [obj|]; [|done]. by destruct (bool_decide _).
Qed.

Lemma execute_restores_state_witness :
  execute blender options scene
  = Ok FINISHED (world_of (execute blender options scene))
  ∧ selected_objects (world_of (execute blender options scene))
    = selected_objects scene
  ∧ area_type (world_of (execute blender options scene))
    = area_type scene
  ∧ frame_current (world_of (execute blender options scene))
    = frame_current scene.
Proof.
  assert (Hrun : execute blender options scene
                 = Ok FINISHED (world_of (execute blender options scene)))
    by (vm_compute; reflexivity).
  split; [exact Hrun|].
  destruct (execute_restores_state blender options scene _ Hrun)
    as (Hsel & Harea & Hframe & _).
  by repeat split.
Defined.

(** C10 (as stated) fails for the active object: no object of [scene] is
    active, and after the run the rig is. *)
Lemma execute_changes_active :
  execute blender options scene
  = Ok FINISHED (world_of (execute blender options scene))
  ∧ active scene = None
  ∧ active (world_of (execute blender options scene)) = Some rig_object.
Proof. vm_compute. by repeat split. Qed.

(** ** Copying the keyframes of a curve *)


(** One [insert] into the curve that was added last. *)
Lemma keyframe_points_insert_last (id : nat) (path : string) (index : nat)
  (kps : list Keyframe) (kf : Keyframe) (w : World) :
  keyframe_points_insert id (length (fcurves (get_action w id))) kf
    (add_fcurve id (mkFCurve path index kps) w)
  = Ok tt
      (add_fcurve id
         (mkFCurve path index (keyframe_insert (fst kf) (snd kf) kps)) w).
Proof.
  unfold keyframe_points_insert, update_action, modify, add_fcurve.
  f_equal. unfold set_actions. simpl. f_equal.
  rewrite list_alter_alter_eq. apply list_alter_ext; [|done].
  intros a Ha. unfold compose, update_fcurve. simpl. f_equal.
  unfold get_action. rewrite Ha. simpl.
  rewrite alter_app_r_alt by lia. rewrite Nat.sub_diag. done.
Qed.

Lemma insert_loop (id : nat) (path : string) (index : nat)
  (keyframes kps : list Keyframe) (w : World) :
  for_ keyframes
    (keyframe_points_insert id (length (fcurves (get_action w id))))
    (add_fcurve id (mkFCurve path index kps) w)
  = Ok tt
      (add_fcurve id
         (mkFCurve path index
            (foldl (λ kps kf, keyframe_insert (fst kf) (snd kf) kps) kps
               keyframes)) w).
Proof.
  revert kps. induction keyframes as [|kf keyframes IH]; intros kps; [done|].
  cbn [for_ foldl].
  rewrite (bind_step _ _ _ _ _ (keyframe_points_insert_last _ _ _ _ _ _)).
  apply IH.
Qed.

(** The block [copy_keyframes] adds one curve with the inserted points, or
    raises when the host refuses the curve. *)
Lemma copy_keyframes_spec (host : Host) (id : nat) (path : string)
  (index : nat) (keyframes : list Keyframe) (w : World) :
  copy_keyframes host id path index keyframes w
  = if fcurve_new_ok host (fcurves (get_action w id)) path index
    then Ok tt (add_fcurve id (mkFCurve path index (inserted keyframes)) w)
    else Raise RuntimeError w.
Proof.
  unfold copy_keyframes, fcurves_new, update_action, bind, get, modify, ret,
    raise.
  destruct (fcurve_new_ok host _ path index); [|done].
  apply (insert_loop id path index keyframes [] w).
Qed.






(** ** Dictionaries *)

Section DictFacts.
Context {K V : Type} `{EqDecision K}.
Implicit Types (k : K) (v : V) (d : Dict.t K V).

Lemma dict_get_set_eq k v d : Dict.get k (Dict.set k v d) = Some v.
Proof.
  induction d as [|[k' v'] d IH]; simpl.
  - by rewrite decide_True.
  - destruct (decide (k' = k)) as [-> | Hk]; simpl.
    + by rewrite decide_True.
    + by rewrite decide_False.
Qed.

Lemma dict_get_set_ne k k' v d :
  k ≠ k' → Dict.get k' (Dict.set k v d) = Dict.get k' d.
Proof.
  intros Hk. induction d as [|[k0 v0] d IH]; simpl.
  - by rewrite decide_False.
  - destruct (decide (k0 = k)) as [-> | Hk0]; simpl.
    + by rewrite !decide_False.
    + by rewrite IH.
Qed.


Lemma dict_keys_set k v d :
  Dict.keys (Dict.set k v d)
  = if decide (k ∈ Dict.keys d) then Dict.keys d else Dict.keys d ++ [k].
Proof.
  unfold Dict.keys. induction d as [|[k' v'] d IH].
  - destruct (decide (k ∈ fst <$> [])) as [Hin | _]; [|done].
    by apply elem_of_nil in Hin.
  - cbn [Dict.set]. destruct (decide (k' = k)) as [-> | Hk].
    + rewrite decide_True; [done | csimpl; by left].
    + rewrite !fmap_cons, IH.
      destruct (decide (k ∈ fst <$> d)) as [Hin | Hin].
      * rewrite decide_True; [done | by right].
      * rewrite decide_False; [done|]. rewrite not_elem_of_cons. by split.
Qed.



End DictFacts.

(** ** Collecting the keyframes *)








(** One curve more: its keyframes are recorded under its channel, and the
    other channels keep theirs. *)
Lemma collect_fcurve_same
  (obj_data : Dict.t string (Dict.t nat (list Keyframe))) (fcurve : FCurve) :
  channel_keyframes (collect_fcurve obj_data fcurve) (data_path fcurve)
    (array_index fcurve) = Some (keyframe_points fcurve).
Proof.
  unfold channel_keyframes, collect_fcurve. cbv zeta.
  rewrite dict_get_set_eq. simpl. apply dict_get_set_eq.
Qed.








(** ** Loops that establish a property for every element *)



(** ** The first pass *)

#[export] Instance grows_preorder : PreOrder grows.
Proof.
  split.
  - intros w. by repeat split.
  - intros w1 w2 w3 (L1 & C1 & K1 & O1) (L2 & C2 & K2 & O2).
    split; [congruence|]. split; [|split].
    + intros id c Hc. by apply C2, C1.
    + intros n key Hk. by apply K2, K1.
    + intros n Hn. by apply O2, O1.
Qed.










(** ** The second pass *)

#[export] Instance driven_preorder (touched : string → Driver → Prop) :
  PreOrder (driven touched).
Proof.
  split.
  - intros w. split; [reflexivity | done].
  - intros w1 w2 w3 [G1 D1] [G2 D2]. split; [by etrans|].
    intros n d Hd Ht. by apply D2; [apply D1|].
Qed.


Lemma custom_props_ensure (d : ObjectData) :
  custom_props (ensure_animation_data d) = custom_props d.
Proof.
  unfold ensure_animation_data.
  destruct (animation_data d); reflexivity.
Qed.

Lemma data_drivers_remove (prop_name : string) (axis : nat) (d : ObjectData) :
  data_drivers (update_anim (set_drivers (driver_remove prop_name axis)) d)
  = driver_remove prop_name axis (data_drivers d).
Proof.
  unfold data_drivers, update_anim. simpl.
  destruct (animation_data d); reflexivity.
Qed.

Lemma data_drivers_add (x : Driver) (d : ObjectData) :
  data_drivers
    (update_anim (set_drivers (λ ds, ds ++ [x])) (ensure_animation_data d))
  = data_drivers d ++ [x].
Proof.
  unfold data_drivers, update_anim, ensure_animation_data.
  destruct (animation_data d) eqn:E; simpl; rewrite ?E; reflexivity.
Qed.

Lemma data_drivers_update_anim (f : AnimData → AnimData) (d : ObjectData) :
  (∀ ad, drivers (f ad) = drivers ad) →
  data_drivers (update_anim f d) = data_drivers d.
Proof.
  intros Hf. unfold data_drivers, update_anim. simpl.
  destruct (animation_data d); simpl; [apply Hf | done].
Qed.









(** ** The clip merger *)








(** ** Failing driver calls *)











(** On the host that refuses every driver the example still finishes, with
    a warning for the channel of the arm. *)
Lemma driverless_run_finishes :
  execute driverless options scene
  = Ok FINISHED (world_of (execute driverless options scene))
  ∧ (WARNING, MsgDriverError "Arm.L" "location" 1)
    ∈ reports (world_of (execute driverless options scene))
  ∧ obj_drivers (world_of (execute driverless options scene)) "Arm.L" = [].
Proof.
  split; [vm_compute; reflexivity|]. split; [|vm_compute; reflexivity].
  vm_compute. do 8 right. left.
Qed.

(** * Further properties *)

(** ** The hierarchy and its root *)

(** X1: the list [get_hierarchy_objects] returns has one object more than
    [count_descendants] counts: the walker and the counter agree on the size
    of a hierarchy. *)
Theorem get_hierarchy_objects_length (obj : Object) :
  Z.of_nat (length (get_hierarchy_objects obj))
  = (count_descendants obj + 1)%Z.
Proof. rewrite count_descendants_hierarchy. lia. Qed.

Lemma find_some_split {A} (f : A → bool) (l : list A) (x : A) :
  List.find f l = Some x →
  ∃ before after,
    l = before ++ x :: after ∧ Forall (λ y, f y = false) before.
Proof.
  induction l as [|y l IH]; [done|]. simpl.
  destruct (f y) eqn:Hy.
  - intros [= ->]. by exists [], l.
  - intros H. destruct (IH H) as (before & after & -> & Hb).
    exists (y :: before), after. split; [done | by constructor].
Qed.

(** The third loop of [find_root_object] keeps the first object with the
    greatest count. *)
Lemma most_descendants_first (l : list Object) (m0 : Z) (r0 : option Object)
  (root : Object) :
  snd (foldl most_descendants_step (m0, r0) l) = Some root →
  (r0 = Some root ∧ Forall (λ o, (count_descendants o ≤ m0)%Z) l)
  ∨ ∃ before after,
      l = before ++ root :: after
      ∧ (m0 < count_descendants root)%Z
      ∧ Forall (λ o, (count_descendants o < count_descendants root)%Z) before
      ∧ Forall (λ o, (count_descendants o ≤ count_descendants root)%Z) after.
Proof.
  revert m0 r0. induction l as [|x l IH]; intros m0 r0 H.
  { left. by split. }
  cbn [foldl] in H. unfold most_descendants_step at 2 in H. cbv zeta in H.
  destruct (Z.ltb_spec m0 (count_descendants x)) as [Hlt | Hge].
  - destruct (IH _ _ H)
      as [[[= ->] Hall] | (before & after & -> & Hm & Hb & Ha)].
    + right. exists [], l. by repeat split.
    + right. exists (x :: before), after. repeat split; [lia | | done].
      constructor; [lia | done].
  - destruct (IH _ _ H) as [[-> Hall] | (before & after & -> & Hm & Hb & Ha)].
    + left. split; [done|]. by constructor.
    + right. exists (x :: before), after. repeat split; [done | | done].
      constructor; [lia | done].
Qed.

(** X2: the root found is the first object of the list that passes the test
    it was found by: the first with a root-like name, else the first whose
    name contains "visual", else the first of those with the greatest number
    of descendants (the objects before it have fewer, the objects after it
    at most as many). *)
Theorem find_root_object_first (objects : list Object) (root : Object) :
  find_root_object objects = Some root →
  ∃ before after,
    objects = before ++ root :: after
    ∧ if is_root_name (name root)
      then Forall (λ o, is_root_name (name o) = false) before
      else if is_visual_name (name root)
      then Forall (λ o, is_visual_name (name o) = false) before
      else Forall (λ o, (count_descendants o < count_descendants root)%Z)
             before
           ∧ Forall (λ o, (count_descendants o ≤ count_descendants root)%Z)
               after.
Proof.
  unfold find_root_object.
  destruct (List.find _ objects) as [r|] eqn:Hroot.
  { intros [= ->]. destruct (find_some_elem _ _ _ Hroot) as [_ ->].
    by apply find_some_split in Hroot. }
  apply find_none_Forall in Hroot. rewrite Forall_forall in Hroot.
  destruct (List.find (λ obj, is_visual_name (name obj)) objects)
    as [r|] eqn:Hvisual.
  { intros [= ->]. destruct (find_some_elem _ _ _ Hvisual) as [Hin Hv].
    rewrite (Hroot _ Hin), Hv. by apply find_some_split in Hvisual. }
  apply find_none_Forall in Hvisual. rewrite Forall_forall in Hvisual.
  unfold most_descendants. intros H.
  apply most_descendants_first in H
    as [[? _] | (before & after & -> & _ & Hb & Ha)]; [done|].
  assert (Hin : root ∈ before ++ root :: after)
    by (apply elem_of_app; right; by left).
  exists before, after. rewrite (Hroot _ Hin), (Hvisual _ Hin). done.
Qed.

Lemma find_root_object_first_witness :
  let a := Obj "A" [] in
  let b := Obj "B" [Obj "C" []] in
  let d := Obj "D" [Obj "E" []] in
  find_root_object [a; b; d] = Some b
  ∧ ∃ before after,
      [a; b; d] = before ++ b :: after
      ∧ if is_root_name (name b)
        then Forall (λ o, is_root_name (name o) = false) before
        else if is_visual_name (name b)
        then Forall (λ o, is_visual_name (name o) = false) before
        else Forall (λ o, (count_descendants o < count_descendants b)%Z)
               before
             ∧ Forall (λ o, (count_descendants o ≤ count_descendants b)%Z)
                 after.
Proof.
  cbv zeta. split; [reflexivity|].
  apply (find_root_object_first
           [Obj "A" []; Obj "B" [Obj "C" []]; Obj "D" [Obj "E" []]]
           (Obj "B" [Obj "C" []])).
  reflexivity.
Defined.

(** ** Cleaned names *)

Lemma replace_length (old new : ascii) (s : string) :
  String.length (Str.replace old new s) = String.length s.
Proof. induction s as [|c s IH]; simpl; [done | by rewrite IH]. Qed.

(** X3: a cleaned object name contains neither ['.'] nor [' '], cleaning it
    again changes nothing, it is as long as the name, and an object named
    like the cleaned name of another gets the same custom property keys. *)
Theorem clean_obj_name_plain (obj_name : string) :
  plain_name (clean_obj_name obj_name) = true
  ∧ clean_obj_name (clean_obj_name obj_name) = clean_obj_name obj_name
  ∧ String.length (clean_obj_name obj_name) = String.length obj_name
  ∧ ∀ prop_name axis,
      channel_key (clean_obj_name obj_name) prop_name axis
      = channel_key obj_name prop_name axis.
Proof.
  assert (Hplain : plain_name (clean_obj_name obj_name) = true).
  { unfold clean_obj_name. induction obj_name as [|c s IH]; [done|].
    cbn [Str.replace plain_name]. rewrite IH, andb_true_r.
    destruct (Ascii.eqb c ".") eqn:Hdot.
    - reflexivity.
    - destruct (Ascii.eqb c " ") eqn:Hsp; [reflexivity|].
      by rewrite Hdot, Hsp. }
  assert (Hidem : clean_obj_name (clean_obj_name obj_name)
                  = clean_obj_name obj_name)
    by (by apply clean_plain_name).
  split; [done|]. split; [done|]. split.
  - unfold clean_obj_name. by rewrite !replace_length.
  - intros prop_name axis. unfold channel_key. by rewrite Hidem.
Qed.

(** ** The collected channels *)

Lemma dict_elem_of_set {K V} `{EqDecision K} (k : K) (v : V)
  (d : Dict.t K V) (x : K * V) :
  x ∈ Dict.set k v d → x = (k, v) ∨ x ∈ d.
Proof.
  induction d as [|[k' v'] d IH]; simpl.
  - intros H. apply list_elem_of_singleton in H. by left.
  - destruct (decide (k' = k)) as [-> | Hk]; intros H;
      apply elem_of_cons in H as [-> | H].
    + by left.
    + right. by right.
    + right. by left.
    + destruct (IH H) as [-> | Hd]; [by left | right; by right].
Qed.

Lemma collect_fcurve_absent
  (obj_data : Dict.t string (Dict.t nat (list Keyframe))) (fcurve : FCurve)
  (prop_name : string) (axis : nat) :
  (prop_name, axis) ≠ channel fcurve →
  channel_keyframes (collect_fcurve obj_data fcurve) prop_name axis
  = channel_keyframes obj_data prop_name axis.
Proof.
  unfold channel_keyframes, collect_fcurve, channel. cbv zeta.
  intros Hne.
  destruct (decide (data_path fcurve = prop_name)) as [<- | Hp].
  - destruct (Dict.get (data_path fcurve) obj_data) as [axes|] eqn:Hget.
    + rewrite Hget, dict_get_set_eq. simpl.
      apply dict_get_set_ne. intros <-. done.
    + rewrite !dict_get_set_eq. simpl. rewrite decide_False; [done|].
      intros <-. done.
  - rewrite dict_get_set_ne by done.
    destruct (Dict.get (data_path fcurve) obj_data); [done|].
    by rewrite dict_get_set_ne.
Qed.

(** The loop over the curves, from any dictionary: the last curve on a
    channel decides its keyframes, and a channel without a curve keeps the
    ones it had. *)
Lemma channel_keyframes_foldl
  (obj_data : Dict.t string (Dict.t nat (list Keyframe)))
  (curves : list FCurve) (prop_name : string) (axis : nat) :
  channel_keyframes (foldl collect_fcurve obj_data curves) prop_name axis
  = match last (filter (λ fc, channel fc = (prop_name, axis)) curves) with
    | Some fc => Some (keyframe_points fc)
    | None => channel_keyframes obj_data prop_name axis
    end.
Proof.
  induction curves as [|fc curves IH] using rev_ind; [done|].
  rewrite foldl_app, filter_app, filter_cons, filter_nil. cbn [foldl].
  destruct (decide (channel fc = (prop_name, axis))) as [Hfc | Hfc].
  - rewrite last_snoc. unfold channel in Hfc. injection Hfc as <- <-.
    apply collect_fcurve_same.
  - rewrite app_nil_r, <- IH. apply collect_fcurve_absent. congruence.
Qed.

(** X4: the keyframes collected for a channel are those of the last curve
    of the action on that data path and index (a later curve overwrites an
    earlier one on the same channel), and none when the action has no such
    curve. *)
Theorem collect_obj_data_last (curves : list FCurve) (prop_name : string)
  (axis : nat) :
  channel_keyframes (collect_obj_data curves) prop_name axis
  = keyframe_points
    <$> last (filter (λ fc, channel fc = (prop_name, axis)) curves).
Proof.
  unfold collect_obj_data. rewrite channel_keyframes_foldl.
  by destruct (last _).
Qed.





(** The objects of [animation_data] are animated objects. *)
Lemma collect_animation_data_keys (w : World) (animated : list Object)
  (obj_name : string) (props : Dict.t string (Dict.t nat (list Keyframe))) :
  (obj_name, props) ∈ collect_animation_data w animated →
  obj_name ∈ name <$> animated.
Proof.
  unfold collect_animation_data.
  assert (Hgen : ∀ l d,
            (obj_name, props) ∈ foldl (collect_object w) d l →
            (obj_name, props) ∈ d ∨ obj_name ∈ name <$> l).
  { induction l as [|x l IH]; intros d H; [by left|].
    cbn [foldl] in H. destruct (IH _ H) as [Hd | Hl].
    - unfold collect_object in Hd.
      destruct (obj_action w (name x)); [|by left].
      destruct (collect_obj_data _); [by left|].
      apply dict_elem_of_set in Hd as [[= -> _] | Hd]; [|by left].
      right. csimpl. by left.
    - right. csimpl. by right. }
  intros H. destruct (Hgen _ _ H) as [Hnil | Hin]; [|done].
  by apply elem_of_nil in Hnil.
Qed.




(** ** The frame range and the keyframes *)





(** ** The preparations of [execute] and the cancelled runs *)

Lemma logged_refl (P : Level * Message → Prop) (w : World) : logged P w w.
Proof. exists []. by rewrite app_nil_r. Qed.

Lemma logged_trans (P : Level * Message → Prop) (w1 w2 w3 : World) :
  logged P w1 w2 → logged P w2 w3 → logged P w1 w3.
Proof.
  intros (l1 & E1 & H1) (l2 & E2 & H2). exists (l1 ++ l2).
  split; [by rewrite E2, E1, app_assoc | by apply Forall_app].
Qed.

Lemma logged_add_report (P : Level * Message → Prop) (l : Level)
  (m : Message) (w : World) :
  P (l, m) → logged P w (add_report l m w).
Proof. intros H. exists [(l, m)]. split; [done | by constructor]. Qed.

Lemma find_root_object_is_Some (first : Object) (rest : list Object) :
  is_Some (find_root_object (first :: rest)).
Proof.
  unfold find_root_object.
  destruct (List.find _ (first :: rest)); [done|].
  destruct (List.find _ (first :: rest)); [done|].
  unfold most_descendants.
  destruct (most_descendants_fold (first :: rest) (-1) None)
    as (m & r & -> & _ & Hall & [[-> ->] | (o & -> & _)]); [|done].
  apply Forall_cons in Hall as [Hx _].
  pose proof (count_descendants_nonneg first). lia.
Qed.

Lemma execute_unselected (host : Host) (self : Operator) (w : World) :
  selected_objects w = [] →
  execute host self w
  = Ok CANCELLED
      (add_report ERROR MsgSelectObject
         (if debug_mode self then add_report INFO MsgStarting w else w)).
Proof.
  intros Hsel. unfold execute, debug, when, report, bind, get, modify, ret.
  destruct (debug_mode self); simpl.
  - change (selected_objects (add_report INFO MsgStarting w))
      with (selected_objects w). by rewrite Hsel.
  - by rewrite Hsel.
Qed.

(** A debug report changes the log only. *)
Lemma debug_spec (self : Operator) (m : Message) (w : World) :
  ∃ w', debug self INFO m w = Ok tt w'
    ∧ same_data w w' ∧ active w' = active w ∧ mode w' = mode w
    ∧ logged preparation_report w w'.
Proof.
  unfold debug, when, report, modify, ret. destruct (debug_mode self).
  - eexists. split; [reflexivity|]. split; [by repeat split|].
    split; [done|]. split; [done|]. apply logged_add_report. by left.
  - exists w. split; [done|]. split; [apply same_data_refl|].
    split; [done|]. split; [done|]. apply logged_refl.
Qed.

(** Lines 95-100 leave the editor in object mode when there is an active
    object and the host accepts the switch. *)
Lemma ensure_object_mode_spec (host : Host) (w : World) :
  ∃ w', ensure_object_mode host w = Ok tt w'
    ∧ same_data w w' ∧ active w' = active w
    ∧ (mode w' = mode w ∨ mode w' = "OBJECT")
    ∧ (is_Some (active w) → mode_set_ok host w "OBJECT" = true →
       mode w' = "OBJECT")
    ∧ logged preparation_report w w'.
Proof.
  unfold ensure_object_mode, try_catch, bind, get, mode_set.
  destruct (active w) as [a|] eqn:Ha.
  2: { exists w. split; [done|]. split; [apply same_data_refl|].
       split; [done|]. split; [by left|].
       split; [by intros [] | apply logged_refl]. }
  destruct (String.eqb_spec (mode w) "OBJECT") as [Hm | Hm]; simpl.
  { exists w. split; [done|]. split; [apply same_data_refl|].
    split; [done|]. split; [by left|]. split; [done | apply logged_refl]. }
  unfold bind, get, modify, raise, report, modify.
  destruct (mode_set_ok host w "OBJECT") eqn:Hok.
  - eexists. split; [reflexivity|]. split; [by repeat split|].
    split; [done|]. split; [by right|]. split; [done|].
    exists []. simpl. by rewrite app_nil_r.
  - eexists. split; [reflexivity|]. split; [by repeat split|].
    split; [done|]. split; [by left|]. split; [done|].
    apply logged_add_report. by right.
Qed.

Lemma ensure_active_log (self : Operator) (first : Object)
  (rest : list Object) (w : World) :
  ∃ w', ensure_active self (first :: rest) w = Ok tt w'
    ∧ same_data w w'
    ∧ active w' = Some (default first (active w))
    ∧ mode w' = mode w
    ∧ logged preparation_report w w'.
Proof.
  unfold ensure_active, bind, get.
  destruct (active w) as [a|] eqn:Hactive.
  { exists w. split; [done|]. split; [apply same_data_refl|].
    split; [done|]. split; [done | apply logged_refl]. }
  unfold modify.
  destruct (debug_spec self (MsgSettingActive (name first))
              (set_active (Some first) w)) as (w' & E & D & A & Mo & L).
  exists w'. split; [exact E|].
  split; [eapply same_data_trans; [|exact D]; by repeat split|].
  split; [by rewrite A|]. split; [by rewrite Mo|].
  destruct L as (log & R & L). by exists log.
Qed.

(** [execute] on a selection: the preparations, then the cancellation for
    lack of animation or the combination. *)
Lemma execute_selected (host : Host) (self : Operator) (w : World)
  (first : Object) (rest : list Object) :
  selected_objects w = first :: rest →
  ∃ root w1,
    find_root_object (first :: rest) = Some root
    ∧ same_data w w1
    ∧ active w1 = Some (default first (active w))
    ∧ (mode w1 = mode w ∨ mode w1 = "OBJECT")
    ∧ ((∀ w0 m, mode_set_ok host w0 m = true) → mode w1 = "OBJECT")
    ∧ logged preparation_report w w1
    ∧ execute host self w
      = match animated_in w root with
        | [] => Ok CANCELLED (add_report WARNING MsgNoAnimated w1)
        | _ :: _ =>
            run_combination host self (context_mode host w) (active w)
              (area_type w) (first :: rest) root (animated_in w root) w1
        end.
Proof.
  intros Hsel.
  destruct (find_root_object_is_Some first rest) as [root Hroot].
  exists root.
  unfold execute. rewrite bind_get.
  destruct (debug_spec self MsgStarting w) as (w1 & E1 & D1 & A1 & M1 & L1).
  rewrite (bind_step _ _ _ _ _ E1), bind_get.
  rewrite (selected_objects_same_data _ _ D1), Hsel.
  destruct (ensure_active_log self first rest w1)
    as (w2 & E2 & D2 & A2 & M2 & L2).
  rewrite (bind_step _ _ _ _ _ E2).
  destruct (ensure_object_mode_spec host w2)
    as (w3 & E3 & D3 & A3 & M3 & M3' & L3).
  rewrite (bind_step _ _ _ _ _ E3), Hroot.
  destruct (debug_spec self (MsgUsingRoot (name root)) w3)
    as (w4 & E4 & D4 & A4 & M4 & L4).
  rewrite (bind_step _ _ _ _ _ E4).
  destruct (debug_spec self
              (MsgFoundObjects (length (get_hierarchy_objects root))) w4)
    as (w5 & E5 & D5 & A5 & M5 & L5).
  rewrite (bind_step _ _ _ _ _ E5), bind_get.
  assert (D15 : same_data w w5).
  { eapply same_data_trans; [|exact D5].
    eapply same_data_trans; [|exact D4].
    eapply same_data_trans; [|exact D3].
    eapply same_data_trans; [exact D1 | exact D2]. }
  fold (animated_in w5 root). rewrite (animated_in_same_data _ _ _ D15).
  exists w5. split; [done|]. split; [done|].
  split; [by rewrite A5, A4, A3, A2, A1|].
  split; [rewrite M5, M4, <- M1, <- M2; exact M3|].
  split.
  { intros Hok. rewrite M5, M4. apply M3'; [by rewrite A2 | apply Hok]. }
  split.
  { eapply logged_trans; [|exact L5]. eapply logged_trans; [|exact L4].
    eapply logged_trans; [|exact L3]. eapply logged_trans; [exact L1 | exact L2]. }
  destruct (animated_in w root) as [|obj objs] eqn:Hanim; [|done].
  reflexivity.
Qed.

(** X6: a cancelled run leaves the objects, the actions, the view layer, the
    area type and the frames of the scene as they were, and its last report
    names the cause: an error for an empty selection, a warning for a
    hierarchy without animation.  The error for a root that cannot be
    determined is never reported: a selection that is not empty always has
    a root. *)
Theorem execute_cancelled_report (host : Host) (self : Operator)
  (w w' : World) :
  execute host self w = Ok CANCELLED w' →
  same_data w w'
  ∧ ∃ log,
      reports w'
      = reports w ++ log
        ++ [match selected_objects w with
            | [] => (ERROR, MsgSelectObject)
            | _ :: _ => (WARNING, MsgNoAnimated)
            end]
      ∧ Forall (λ r, r.1 = INFO ∨ r = (WARNING, MsgModeNote)) log.
Proof.
  intros H. destruct (selected_objects w) as [|first rest] eqn:Hsel.
  - rewrite (execute_unselected _ _ _ Hsel) in H. injection H as <-.
    destruct (debug_mode self).
    + split; [by repeat split|]. exists [(INFO, MsgStarting)].
      split; [simpl; by rewrite <- app_assoc | by repeat constructor].
    + split; [by repeat split|]. exists []. by split.
  - destruct (execute_selected host self w first rest Hsel)
      as (root & w1 & _ & D & _ & _ & _ & (log & R & L) & E).
    rewrite E in H. destruct (animated_in w root) as [|obj objs].
    + injection H as <-. split.
      { eapply same_data_trans; [exact D | by repeat split]. }
      exists log. split; [|exact L]. simpl. by rewrite R, app_assoc.
    + apply run_combination_finished in H. discriminate.
Qed.

Lemma execute_cancelled_report_witness :
  same_data head_scene (world_of (execute blender options head_scene))
  ∧ reports (world_of (execute blender options head_scene))
    = [(INFO, MsgStarting); (INFO, MsgUsingRoot "Head");
       (INFO, MsgFoundObjects 1); (WARNING, MsgNoAnimated)].
Proof.
  destruct (execute_cancelled_report blender options head_scene
              (world_of (execute blender options head_scene)))
    as [D _]; [vm_compute; reflexivity|].
  split; [exact D | vm_compute; reflexivity].
Defined.





(** ** The editor state, whatever the outcome *)

Lemma world_of_bind {A B} (m : M A) (k : A → M B) (w : World) :
  world_of (bind m k w)
  = match m w with
    | Ok a w1 => world_of (k a w1)
    | Raise _ w1 => w1
    end.
Proof. unfold bind. by destruct (m w). Qed.

Lemma execute_area_type (host : Host) (self : Operator) (w0 : World) :
  inv (λ w, area_type w = area_type w0 ∧ frame_current w = frame_current w0)
    (execute host self).
Proof.
  unfold execute. inv_auto; simpl; try done; intuition congruence.
Qed.

Lemma select_ensure (d : ObjectData) :
  select (ensure_animation_data d) = select d.
Proof. unfold ensure_animation_data. by destruct (animation_data d). Qed.

(** The combination leaves the selection flags alone until it restores
    the editor state. *)
Lemma create_standalone_action_select (host : Host) (self : Operator)
  (root : Object) (animated : list Object) (mn mx : Frame) (n : string)
  (b : bool) :
  inv (λ w, select (obj_data w n) = b)
    (create_standalone_action host self root animated mn mx).
Proof.
  inv_auto; autorewrite with world; repeat case_decide; subst;
    rewrite ?select_ensure; simpl; rewrite ?select_ensure; done.
Qed.

Lemma selected_objects_ext (w w' : World) :
  view_layer w' = view_layer w →
  (∀ n, select (obj_data w' n) = select (obj_data w n)) →
  selected_objects w' = selected_objects w.
Proof.
  intros Hv Hs. unfold selected_objects. rewrite Hv.
  apply filter_ext_elem. intros obj _. by rewrite Hs.
Qed.

(** X8: whatever its outcome (finished, cancelled or an exception),
    [execute] leaves the selection, the area type and the current frame as
    they were, and the active object too when there was one; when there was
    none, the first selected object is left active.  The panel is polled
    after the run as it was before. *)
Theorem execute_keeps_editor (host : Host) (self : Operator) (w : World) :
  let w' := world_of (execute host self w) in
  selected_objects w' = selected_objects w
  ∧ active w' = match active w with
                | Some obj => Some obj
                | None => head (selected_objects w)
                end
  ∧ area_type w' = area_type w
  ∧ frame_current w' = frame_current w
  ∧ poll w' = poll w.
Proof.
  cbv zeta.
  destruct (execute_area_type host self w w (conj eq_refl eq_refl))
    as [Harea Hframe].
  assert (Hsel : selected_objects (world_of (execute host self w))
                 = selected_objects w
                 ∧ active (world_of (execute host self w))
                   = match active w with
                     | Some obj => Some obj
                     | None => head (selected_objects w)
                     end).
  2: { destruct Hsel as [Hsel Hact]. repeat split; try done.
       unfold poll. by rewrite Harea. }
  clear Harea Hframe.
  destruct (selected_objects w) as [|first rest] eqn:Hsel.
  { rewrite (execute_unselected _ _ _ Hsel). cbn [world_of].
    destruct (debug_mode self);
      (split; [exact Hsel | simpl; by destruct (active w)]). }
  destruct (execute_selected host self w first rest Hsel)
    as (root & w1 & _ & D & A & _ & _ & _ & ->).
  assert (A' : active w1 = match active w with
                           | Some obj => Some obj
                           | None => head (first :: rest)
                           end)
    by (rewrite A; by destruct (active w)).
  destruct (animated_in w root) as [|obj objs] eqn:Hanim.
  { cbn [world_of]. split; [|exact A'].
    rewrite <- Hsel. apply (selected_objects_same_data w).
    eapply same_data_trans; [exact D | by repeat split]. }
  rewrite <- Hanim, <- Hsel. rewrite <- Hsel in A'. unfold run_combination.
  destruct (quiet_debug self INFO
              (MsgFoundAnimated (length (animated_in w root))) w1)
    as (w2 & E2 & D2 & A2).
  rewrite (bind_step _ _ _ _ _ E2), bind_get.
  destruct (frame_range self w2 _) as [mn mx].
  destruct D as (Ho1 & _ & Hv1 & _).
  destruct D2 as (Ho2 & _ & Hv2 & _).
  pose proof (set_scene_range_data self mn mx w2 w2) as H3.
  rewrite world_of_bind.
  destruct (set_scene_range self mn mx w2) as [[] w3 | e w3];
    simpl in H3; destruct H3 as (Ho3 & Hv3 & Ha3 & _); try done.
  2: { split; [|by rewrite Ha3, A2, A'].
       unfold selected_objects, obj_data.
       by rewrite Ho3, Hv3, Ho2, Hv2, Ho1, Hv1. }
  pose proof (create_standalone_action_editor host self root
                (animated_in w root) mn mx w3 w3) as H4.
  pose proof (λ n, create_standalone_action_select host self root
                     (animated_in w root) mn mx n _ w3 eq_refl) as Hs4.
  pose proof (λ n, create_standalone_action_present host self root
                     (animated_in w root) mn mx n w3) as Hp4.
  rewrite world_of_bind.
  destruct (create_standalone_action _ _ _ _ _ _ w3) as [r w4 | e w4];
    simpl in H4, Hs4, Hp4;
    destruct H4 as (Hv4 & Ha4 & _); try (by repeat split).
  2: { split; [|by rewrite Ha4, Ha3, A2, A'].
       rewrite (selected_objects_ext w3 w4 Hv4 Hs4).
       unfold selected_objects, obj_data.
       by rewrite Ho3, Hv3, Ho2, Hv2, Ho1, Hv1. }
  rewrite world_of_bind.
  destruct (restore_state_spec host (context_mode host w) (active w)
              (area_type w) (selected_objects w) w4)
    as (w5 & E5 & Hv5 & _ & _ & Ha5 & Hs5).
  rewrite E5. simpl. split.
  - unfold selected_objects at 1.
    rewrite Hv5, Hv4, Hv3, Hv2, Hv1. unfold selected_objects.
    apply filter_ext_elem. intros x Hx. rewrite Hs5. split.
    + intros [Hin _]. apply list_elem_of_fmap in Hin as (x' & -> & Hin).
      unfold selected_objects in Hin.
      by apply list_elem_of_filter in Hin as [Hin _].
    + intros Hselected. split.
      * apply list_elem_of_fmap_2. unfold selected_objects.
        by apply list_elem_of_filter.
      * apply Hp4. rewrite Ho3, Ho2, Ho1. unfold obj_data in Hselected.
        by destruct (objects w !! name x).
  - rewrite Ha5, Ha4, Ha3, A2, A'.
    destruct (active w) as [a|]; [|done]. by destruct (bool_decide _).
Qed.

(** ** The actions of the file *)






(** ** The custom properties *)

Lemma obj_data_deselect_all (w : World) (n : string) :
  obj_data (set_objects (fmap (set_select false)) w) n
  = set_select false (obj_data w n).
Proof.
  unfold obj_data. simpl. rewrite lookup_fmap.
  by destruct (objects w !! n).
Qed.

Lemma custom_props_update_anim (f : AnimData → AnimData) (d : ObjectData) :
  custom_props (update_anim f d) = custom_props d.
Proof. done. Qed.

Lemma custom_props_set_select (b : bool) (d : ObjectData) :
  custom_props (set_select b d) = custom_props d.
Proof. done. Qed.

Ltac props_leaf :=
  autorewrite with world; rewrite ?obj_data_deselect_all;
  repeat case_decide; subst;
  rewrite ?custom_props_update_anim, ?custom_props_ensure,
    ?custom_props_set_select; try done.



(** ** The objects outside the combination *)

Lemma run_combination_others (host : Host) (self : Operator)
  (original_mode : string) (original_active : option Object)
  (original_area : string) (original_selected : list Object)
  (root : Object) (animated : list Object) (n : string)
  (a : option AnimData) (c : gmap string Q) :
  n ≠ name root → n ∉ name <$> animated →
  inv (λ w, animation_data (obj_data w n) = a
            ∧ custom_props (obj_data w n) = c)
    (run_combination host self original_mode original_active original_area
       original_selected root animated).
Proof.
  intros Hroot Hanim.
  inv_auto;
    autorewrite with world; rewrite ?obj_data_deselect_all;
    repeat case_decide; subst; try done.
  all: try match goal with
    | H : (?k, _) ∈ collect_animation_data _ _ |- _ =>
        apply collect_animation_data_keys in H; done
    | H : _ ∈ _ |- _ =>
        exfalso; apply Hanim; by apply list_elem_of_fmap_2
    end.
Qed.

(** X11: whatever its outcome, [execute] leaves the animation data and the
    custom properties of every object other than the root and the animated
    objects of its hierarchy as they were. *)
Theorem execute_leaves_others (host : Host) (self : Operator) (w : World)
  (root : Object) (n : string) :
  find_root_object (selected_objects w) = Some root →
  n ≠ name root → n ∉ name <$> animated_in w root →
  let w' := world_of (execute host self w) in
  animation_data (obj_data w' n) = animation_data (obj_data w n)
  ∧ custom_props (obj_data w' n) = custom_props (obj_data w n).
Proof.
  intros Hroot Hn Hanim. cbv zeta.
  destruct (execute_cases host self w)
    as [(_ & w1 & -> & D)
       | [(_ & _ & w1 & -> & D)
         | [(root' & _ & _ & _ & w1 & -> & D)
           | (root' & w1 & _ & Hroot' & _ & D & _ & ->)]]];
    try (destruct D as (Ho & _); unfold obj_data; simpl; by rewrite Ho).
  rewrite Hroot in Hroot'. injection Hroot' as <-.
  apply (run_combination_others host self _ _ _ _ root (animated_in w root)
           n _ _ Hn Hanim w1).
  destruct D as (Ho & _). unfold obj_data. by rewrite Ho.
Qed.

Lemma execute_leaves_others_witness :
  animation_data (obj_data (world_of (execute blender options scene)) "Head")
  = animation_data (obj_data scene "Head")
  ∧ custom_props (obj_data (world_of (execute blender options scene)) "Head")
    = custom_props (obj_data scene "Head").
Proof.
  apply (execute_leaves_others blender options scene rig_object "Head").
  - reflexivity.
  - discriminate.
  - vm_compute. intros H. inversion H as [|? ? ? H']; subst.
    inversion H' as [|? ? ? H'']; subst. inversion H''.
Defined.

(** ** The drivers *)

Lemma data_drivers_set_select (b : bool) (d : ObjectData) :
  data_drivers (set_select b d) = data_drivers d.
Proof. reflexivity. Qed.

Lemma data_drivers_set_action (a : option nat) (d : ObjectData) :
  data_drivers (update_anim (set_action a) d) = data_drivers d.
Proof. by apply data_drivers_update_anim. Qed.

Lemma data_drivers_set_nla_tracks (f : AnimData → list string)
  (d : ObjectData) :
  data_drivers (update_anim (λ ad, set_nla_tracks (f ad) ad) d)
  = data_drivers d.
Proof. by apply data_drivers_update_anim. Qed.

Lemma data_nla_tracks_set_select (b : bool) (d : ObjectData) :
  data_nla_tracks (set_select b d) = data_nla_tracks d.
Proof. reflexivity. Qed.

Lemma data_nla_tracks_set_action (a : option nat) (d : ObjectData) :
  data_nla_tracks (update_anim (set_action a) d) = data_nla_tracks d.
Proof.
  unfold data_nla_tracks, update_anim. simpl. by destruct (animation_data d).
Qed.

Lemma elem_of_driver_remove (prop_name : string) (axis : nat) (d : Driver)
  (ds : list Driver) :
  d ∈ driver_remove prop_name axis ds
  ↔ ¬ (driver_path d = prop_name ∧ driver_index d = axis) ∧ d ∈ ds.
Proof. unfold driver_remove. by rewrite list_elem_of_filter. Qed.

Lemma execute_drivers_inv (host : Host) (self : Operator) (n : string)
  (d : Driver) :
  is_transform (driver_path d) = false →
  inv (λ w, d ∈ obj_drivers w n) (execute host self).
Proof.
  intros Hd. unfold execute. inv_auto; unfold obj_drivers in *;
    autorewrite with world; rewrite ?obj_data_deselect_all;
    repeat case_decide; subst;
    rewrite ?data_drivers_set_select, ?data_drivers_set_action,
      ?data_drivers_set_nla_tracks, ?data_drivers_ensure,
      ?data_drivers_remove, ?data_drivers_add; try done.
  - apply elem_of_driver_remove. split; [|done]. intros [<- _].
    by rewrite Hd in *.
  - apply elem_of_app. by left.
Qed.

Lemma run_combination_root_drivers (host : Host) (self : Operator)
  (original_mode : string) (original_active : option Object)
  (original_area : string) (original_selected : list Object)
  (root : Object) (animated : list Object) (ds : list Driver)
  (tracks : list string) :
  inv (λ w, obj_drivers w (name root) = ds
            ∧ obj_nla_tracks w (name root) = tracks)
    (run_combination host self original_mode original_active original_area
       original_selected root animated).
Proof.
  inv_auto; unfold obj_drivers, obj_nla_tracks in *;
    autorewrite with world; rewrite ?obj_data_deselect_all;
    repeat case_decide; subst;
    rewrite ?data_drivers_set_select, ?data_drivers_set_action,
      ?data_drivers_set_nla_tracks, ?data_drivers_ensure,
      ?data_nla_tracks_ensure, ?data_nla_tracks_set_action,
      ?data_nla_tracks_set_select; try done.
  match goal with H : name _ = name root |- _ => by rewrite H end.
Qed.

(** X12: whatever its outcome, [execute] leaves the drivers and the NLA
    tracks of the root as they were, and on every object the drivers of
    the properties other than location, rotation_euler and scale. *)
Theorem execute_keeps_drivers (host : Host) (self : Operator) (w : World)
  (root : Object) :
  find_root_object (selected_objects w) = Some root →
  let w' := world_of (execute host self w) in
  obj_drivers w' (name root) = obj_drivers w (name root)
  ∧ obj_nla_tracks w' (name root) = obj_nla_tracks w (name root)
  ∧ ∀ n d,
      d ∈ obj_drivers w n → is_transform (driver_path d) = false →
      d ∈ obj_drivers w' n.
Proof.
  intros Hroot. cbv zeta.
  assert (Hpair : obj_drivers (world_of (execute host self w)) (name root)
                  = obj_drivers w (name root)
                  ∧ obj_nla_tracks (world_of (execute host self w)) (name root)
                    = obj_nla_tracks w (name root)).
  { destruct (execute_cases host self w)
      as [(_ & w1 & -> & D)
         | [(_ & _ & w1 & -> & D)
           | [(root' & _ & _ & _ & w1 & -> & D)
             | (root' & w1 & _ & Hroot' & _ & D & _ & ->)]]];
      try (destruct D as (Ho & _);
           unfold obj_drivers, obj_nla_tracks, obj_data; simpl;
           by rewrite Ho).
    rewrite Hroot in Hroot'. injection Hroot' as <-.
    apply (run_combination_root_drivers host self _ _ _ _ root
             (animated_in w root) _ _ w1).
    destruct D as (Ho & _). unfold obj_drivers, obj_nla_tracks, obj_data.
    by rewrite Ho. }
  destruct Hpair as [Hd Ht]. split; [done|]. split; [done|].
  intros n d Hin Hpath.
  by apply (execute_drivers_inv host self n d Hpath w).
Qed.

Lemma execute_keeps_drivers_witness :
  find_root_object (selected_objects scene) = Some rig_object
  ∧ obj_drivers (world_of (execute blender options scene)) "Rig"
    = obj_drivers scene "Rig".
Proof.
  split; [reflexivity|].
  apply (execute_keeps_drivers blender options scene rig_object).
  reflexivity.
Defined.

(** X13: for a channel the second pass replaces the driver: the drivers the
    object had on the property and index are removed before the host is
    asked for the new one, so that a channel the host refuses is left
    without any driver; the other objects are not touched, and the step
    ends normally in either case. *)
Theorem second_pass_channel_drivers (host : Host) (self : Operator)
  (root_name obj_name prop_name : string) (axis : nat)
  (keyframes : list Keyframe) (comp : string) (w : World) :
  component axis = Some comp →
  ∃ w',
    second_pass_channel host self root_name obj_name prop_name
      (axis, keyframes) w = Ok tt w'
    ∧ obj_drivers w' obj_name
      = driver_remove prop_name axis (obj_drivers w obj_name)
        ++ (if driver_add_ok host obj_name prop_name axis
            then [make_driver root_name prop_name axis
                    (prop_key (clean_obj_name obj_name) prop_name comp)]
            else [])
    ∧ ∀ n, n ≠ obj_name → obj_data w' n = obj_data w n.
Proof.
  intros Hcomp. unfold second_pass_channel, index_component.
  rewrite Hcomp. unfold try_catch, create_driver, bind, ret, modify, raise,
    report, debug, when.
  destruct (driver_add_ok host obj_name prop_name axis);
    [destruct (debug_mode self)|];
    (eexists; split; [reflexivity|]); unfold obj_drivers;
    autorewrite with world; rewrite !decide_True by done;
    autorewrite with world; rewrite ?decide_True by done;
    rewrite ?data_drivers_add, ?data_drivers_remove, ?app_nil_r;
    (split; [done|]); intros n Hn; autorewrite with world;
    rewrite !decide_False by done; autorewrite with world;
    by rewrite ?decide_False by done.
Qed.

Lemma second_pass_channel_drivers_witness :
  ∃ w',
    second_pass_channel driverless options "Rig" "Arm.L" "location"
      (1%nat, []) scene = Ok tt w'
    ∧ obj_drivers w' "Arm.L"
      = driver_remove "location" 1 (obj_drivers scene "Arm.L") ++ []
    ∧ ∀ n, n ≠ "Arm.L" → obj_data w' n = obj_data scene n.
Proof.
  apply (second_pass_channel_drivers driverless options "Rig" "Arm.L"
           "location" 1 [] "y" scene).
  reflexivity.
Defined.

(** ** Runs that raise *)

Lemma total_ok_or {A} (e : Exn) (m : M A) : total m → ok_or e m.
Proof. intros H w. left. apply H. Qed.




Section FirstPass.
Variable host : Host.
Variable self : Operator.
Hypothesis host_accepts :
  ∀ curves path index, fcurve_new_ok host curves path index = true.






End FirstPass.




Section Outcome.
Variable host : Host.
Variable self : Operator.
Hypothesis host_accepts :
  ∀ curves path index, fcurve_new_ok host curves path index = true.


End Outcome.





(** ** The curves of the master action *)

Lemma fold_for_state_inv {A S} (J : S → World → Prop) (l : list A)
  (body : S → A → M S) :
  (∀ s x w s' w', x ∈ l → J s w → body s x w = Ok s' w' → J s' w') →
  ∀ s w s' w', J s w → fold_for l s body w = Ok s' w' → J s' w'.
Proof.
  induction l as [|x l IH]; intros Hbody s w s' w' HJ Hrun.
  - by injection Hrun as <- <-.
  - cbn [fold_for] in Hrun. apply bind_Ok in Hrun as (s1 & w1 & E1 & Hrun).
    eapply IH; [|by eapply (Hbody s x w s1 w1); [left|..]|exact Hrun].
    intros s0 y w0 s0' w0' Hy. apply Hbody. by right.
Qed.









(** ** The closing report *)

Lemma created_props_props (old : gmap string Q) (root_name : string)
  (created : Dict.t string bool) (w w' : World) :
  custom_props (obj_data w' root_name) = custom_props (obj_data w root_name) →
  created_props old root_name created w →
  created_props old root_name created w'.
Proof. unfold created_props. by intros ->. Qed.

Lemma first_pass_channel_created (host : Host) (self : Operator)
  (master : nat) (root_name obj_name prop_name : string)
  (old : gmap string Q) (created created' : Dict.t string bool)
  (channel : nat * list Keyframe) (w w' : World) :
  created_props old root_name created w →
  first_pass_channel host self master root_name obj_name prop_name created
    channel w = Ok created' w' →
  created_props old root_name created' w'.
Proof.
  destruct channel as [axis keyframes]. intros HJ.
  unfold first_pass_channel.
  destruct (bool_decide (obj_name = root_name) && is_transform prop_name).
  { intros H. apply bind_Ok in H as ([] & w1 & Hcopy & [= <- <-]).
    rewrite copy_keyframes_spec in Hcopy.
    destruct (fcurve_new_ok host _ _ _); [|discriminate].
    injection Hcopy as <-. by eapply created_props_props; [|exact HJ]. }
  destruct (is_transform prop_name); [|by intros [= <- <-]].
  intros H. apply bind_Ok in H as (comp & w0 & Hcomp & H).
  unfold index_component in Hcomp.
  destruct (component axis) as [comp'|]; [|discriminate].
  injection Hcomp as <- <-. rewrite bind_get in H.
  apply bind_Ok in H as (c1 & w1 & Hprop & H).
  apply bind_Ok in H as ([] & w2 & Hcopy & [= <- <-]).
  rewrite copy_keyframes_spec in Hcopy.
  destruct (fcurve_new_ok host _ _ _); [|discriminate].
  injection Hcopy as <-.
  eapply (created_props_props _ _ _ w1); [done|].
  set (key := prop_key (clean_obj_name obj_name) prop_name comp') in *.
  destruct (custom_props (obj_data w root_name) !! key) as [v|] eqn:Hv.
  { by injection Hprop as <- <-. }
  apply bind_Ok in Hprop as ([] & w3 & Hdebug & Hprop).
  apply bind_Ok in Hprop as ([] & w4 & Hset & [= <- <-]).
  injection Hset as <-.
  assert (Hw3 : obj_data w3 root_name = obj_data w root_name).
  { unfold debug, when, report, modify, ret in Hdebug.
    by destruct (debug_mode self); injection Hdebug as <-. }
  destruct HJ as (Hnd & Hdom & Hold).
  assert (Hkey : (key ∉ dom old) ∧ (key ∉ Dict.keys created)).
  { apply not_elem_of_dom in Hv. rewrite Hdom in Hv.
    apply not_elem_of_union in Hv as [H1 H2]. split; [done|].
    by rewrite elem_of_list_to_set in H2. }
  destruct Hkey as [Hkey1 Hkey2].
  unfold created_props. rewrite dict_keys_set, decide_False by done.
  split; [|split].
  - apply NoDup_app. split; [done|]. split; [|apply NoDup_singleton].
    intros x Hx Hx'. apply list_elem_of_singleton in Hx'. by subst.
  - rewrite obj_data_update_obj, decide_True by done. simpl.
    rewrite dom_insert_L, Hw3, Hdom, list_to_set_app_L. simpl.
    apply set_eq. intros x.
    rewrite !elem_of_union, elem_of_singleton, elem_of_empty. tauto.
  - intros k Hk. apply elem_of_app in Hk as [Hk | Hk]; [by apply Hold|].
    apply list_elem_of_singleton in Hk as ->. by apply not_elem_of_dom.
Qed.

Lemma first_pass_created (host : Host) (self : Operator) (master : nat)
  (root_name : string)
  (ad : Dict.t string (Dict.t string (Dict.t nat (list Keyframe))))
  (created : Dict.t string bool) (w w' : World) :
  first_pass host self master root_name ad w = Ok created w' →
  created_props (custom_props (obj_data w root_name)) root_name created w'.
Proof.
  unfold first_pass.
  apply (fold_for_state_inv
           (created_props (custom_props (obj_data w root_name)) root_name)).
  - intros c1 [obj_name props] w1 c2 w2 _.
    apply fold_for_state_inv. intros c3 [prop_name axes] w3 c4 w4 _.
    apply fold_for_state_inv. intros c5 ch w5 c6 w6 _.
    apply first_pass_channel_created.
  - split; [apply NoDup_nil_2|]. split; [simpl; by rewrite union_empty_r_L|].
    intros key Hkey. by apply elem_of_nil in Hkey.
Qed.

Lemma created_props_size (old : gmap string Q) (root_name : string)
  (created : Dict.t string bool) (w : World) :
  created_props old root_name created w →
  length created
  = size (dom (custom_props (obj_data w root_name))) - size (dom old).
Proof.
  intros (Hnd & Hdom & Hold). rewrite Hdom, size_union.
  - rewrite size_list_to_set by done. unfold Dict.keys.
    rewrite length_fmap. lia.
  - intros key H1 H2. rewrite elem_of_list_to_set in H2.
    apply Hold in H2. apply elem_of_dom in H1 as [v Hv]. congruence.
Qed.

Lemma second_pass_custom_props (host : Host) (self : Operator)
  (root_name : string)
  (ad : Dict.t string (Dict.t string (Dict.t nat (list Keyframe))))
  (n : string) (c : gmap string Q) :
  inv (λ w, custom_props (obj_data w n) = c)
    (second_pass host self root_name ad).
Proof.
  inv_auto; props_leaf.
Qed.

Lemma remove_original_custom_props (self : Operator) (root : Object)
  (animated : list Object) (n : string) (c : gmap string Q) :
  inv (λ w, custom_props (obj_data w n) = c)
    (when (negb (keep_original_actions self))
       (for_ animated (remove_original root))).
Proof.
  inv_auto; props_leaf.
Qed.

Lemma restore_state_custom_props (host : Host) (original_mode : string)
  (original_active : option Object) (original_area : string)
  (original_selected : list Object) (n : string) (c : gmap string Q)
  (r : list (Level * Message)) :
  inv (λ w, custom_props (obj_data w n) = c ∧ reports w = r)
    (restore_state host original_mode original_active original_area
       original_selected).
Proof.
  inv_auto; props_leaf.
Qed.

Lemma set_scene_range_objects (self : Operator) (mn mx : Frame) (w0 : World) :
  inv (λ w, objects w = objects w0) (set_scene_range self mn mx).
Proof. inv_auto; simpl; done. Qed.

(** X17: the last report of a run that finishes is the closing one, and the
    number it gives is the number of custom properties the run has added to
    the root: a property the root had already is not counted. *)
Theorem execute_reports_created (host : Host) (self : Operator)
  (w w' : World) (root : Object) :
  execute host self w = Ok FINISHED w' →
  find_root_object (selected_objects w) = Some root →
  last (reports w')
  = Some (INFO,
          MsgCreated
            (size (dom (custom_props (obj_data w' (name root))))
             - size (dom (custom_props (obj_data w (name root)))))).
Proof.
  intros H Hroot.
  destruct (execute_cases host self w)
    as [(_ & w1 & E & _)
       | [(_ & _ & w1 & E & _)
         | [(root' & _ & _ & _ & w1 & E & _)
           | (root' & w1 & _ & Hroot' & _ & D & _ & E)]]];
    try (rewrite E in H; discriminate).
  rewrite Hroot in Hroot'. injection Hroot' as <-.
  rewrite E in H. clear E. unfold run_combination in H.
  destruct (quiet_debug self INFO
              (MsgFoundAnimated (length (animated_in w root))) w1)
    as (w2 & E2 & D2 & _).
  rewrite (bind_step _ _ _ _ _ E2), bind_get in H.
  destruct (frame_range self w2 _) as [mn mx].
  apply bind_Ok in H as ([] & w3 & E3 & H).
  apply bind_Ok in H as (r & w4 & E4 & H).
  apply bind_Ok in H as ([] & w5 & E5 & H). injection H as -> <-.
  assert (Ho3 : objects w3 = objects w).
  { pose proof (set_scene_range_objects self mn mx w2 w2 eq_refl) as H3.
    rewrite E3 in H3. simpl in H3. rewrite H3.
    destruct D as (<- & _). apply D2. }
  rewrite create_standalone_action_unfold in E4.
  unfold run_passes in E4.
  apply bind_Ok in E4 as (created & w6 & Hfirst & E4).
  apply bind_Ok in E4 as ([] & w7 & Hsecond & E4).
  apply bind_Ok in E4 as ([] & w8 & Hremove & E4).
  injection E4 as <-.
  pose proof (first_pass_created _ _ _ _ _ _ _ _ Hfirst) as Hcreated.
  apply created_props_size in Hcreated.
  assert (Hstart : custom_props
                     (obj_data (with_root_action self root w3) (name root))
                   = custom_props (obj_data w (name root))).
  { unfold with_root_action, with_master.
    autorewrite with world. rewrite decide_True by done.
    autorewrite with world. rewrite decide_True by done.
    rewrite custom_props_update_anim, custom_props_ensure. unfold obj_data.
    destruct (debug_mode self); simpl; by rewrite Ho3. }
  rewrite Hstart in Hcreated.
  pose proof (second_pass_custom_props host self (name root)
                (collect_animation_data (with_master self w3)
                   (animated_in w root)) (name root)
                _ w6 eq_refl) as H7.
  rewrite Hsecond in H7. simpl in H7.
  pose proof (remove_original_custom_props self root (animated_in w root)
                (name root) _ w7 eq_refl) as H8.
  rewrite Hremove in H8. simpl in H8.
  pose proof (restore_state_custom_props host (context_mode host w)
                (active w) (area_type w) (selected_objects w) (name root)
                _ _
                (add_report INFO (MsgCreated (length created))
                   (set_frame_current (frame_current w3) w8))
                (conj eq_refl eq_refl)) as H5.
  rewrite E5 in H5. simpl in H5. destruct H5 as [Hc5 Hr5].
  rewrite Hr5, last_snoc, Hc5. autorewrite with world.
  by rewrite H8, H7, Hcreated.
Qed.

Lemma execute_reports_created_witness :
  last (reports (world_of (execute blender options scene)))
  = Some (INFO,
          MsgCreated
            (size (dom (custom_props
                          (obj_data (world_of (execute blender options scene))
                             (name rig_object))))
             - size (dom (custom_props (obj_data scene (name rig_object)))))).
Proof.
  apply (execute_reports_created blender options scene _ rig_object).
  - vm_compute. reflexivity.
  - reflexivity.
Defined.

(** ** The panel *)


(** X19: the info box of the panel counts the animated objects of the
    selection, the operator looks for them in the hierarchy of the root.
    The count is at most the number of selected objects; when the whole
    hierarchy of the root is selected and the count is 0 the run is
    cancelled, and when the selection lies within the hierarchy and the
    count is not 0 the run is not cancelled. *)
Theorem draw_info_execute (host : Host) (self : Operator) (w : World)
  (root : Object) (selected_count animated_count : nat) :
  draw_info w = Some (selected_count, animated_count) →
  find_root_object (selected_objects w) = Some root →
  (animated_count ≤ selected_count)%nat
  ∧ (get_hierarchy_objects root ⊆ selected_objects w →
     animated_count = 0%nat →
     ∃ w', execute host self w = Ok CANCELLED w')
  ∧ (selected_objects w ⊆ get_hierarchy_objects root →
     (0 < animated_count)%nat →
     ∃ w', execute host self w = Ok FINISHED w'
           ∨ ∃ e, execute host self w = Raise e w').
Proof.
  unfold draw_info. intros Hinfo Hroot.
  destruct (selected_objects w) as [|first rest] eqn:Hsel; [done|].
  cbv zeta in Hinfo. injection Hinfo as <- <-.
  split; [apply (length_filter _ (first :: rest))|].
  assert (Hcases := execute_cases host self w). rewrite Hsel in Hcases.
  destruct Hcases
    as [(? & _)
       | [(_ & Hnone & _)
         | [(root' & _ & Hroot' & Hanim & w1 & E & _)
           | (root' & w1 & _ & Hroot' & Hanim & _ & _ & E)]]];
    [done | congruence | |];
    rewrite Hroot in Hroot'; injection Hroot' as <-.
  - split; [intros _ _; by exists w1|].
    intros Hsub Hpos. exfalso.
    destruct (filter _ (first :: rest)) as [|x l] eqn:Hf; [simpl in Hpos; lia|].
    assert (Hx : x ∈ filter (λ obj, is_animated w obj = true) (first :: rest))
      by (rewrite Hf; by left).
    apply list_elem_of_filter in Hx as [Hx1 Hx2].
    assert (Hin : x ∈ animated_in w root)
      by (apply list_elem_of_filter; split; [done | by apply Hsub]).
    rewrite Hanim in Hin. by apply elem_of_nil in Hin.
  - split.
    + intros Hsub Hzero. exfalso. apply Hanim.
      apply length_zero_iff_nil in Hzero.
      destruct (animated_in w root) as [|x l] eqn:Ha; [done|].
      assert (Hx : x ∈ animated_in w root) by (rewrite Ha; by left).
      apply list_elem_of_filter in Hx as [Hx1 Hx2].
      assert (Hin : x ∈ filter (λ obj, is_animated w obj = true)
                        (first :: rest))
        by (apply list_elem_of_filter; split; [done | by apply Hsub]).
      rewrite Hzero in Hin. by apply elem_of_nil in Hin.
    + intros _ _. rewrite E.
      destruct (run_combination _ _ _ _ _ _ _ _ w1) as [r w' | e w'] eqn:Hrun.
      * apply run_combination_finished in Hrun as ->.
        exists w'. by left.
      * exists w'. right. by exists e.
Qed.

Lemma draw_info_execute_witness :
  draw_info scene = Some (2, 2)%nat
  ∧ ∃ w', execute blender options scene = Ok FINISHED w'
          ∨ ∃ e, execute blender options scene = Raise e w'.
Proof.
  split; [reflexivity|].
  destruct (draw_info_execute blender options scene rig_object 2 2)
    as (_ & _ & H); [reflexivity | reflexivity |].
  apply H; [|lia].
  change (selected_objects scene) with [rig_object; arm_object].
  change (get_hierarchy_objects rig_object)
    with [rig_object; head_object; arm_object].
  intros x Hx. apply elem_of_cons in Hx as [-> | Hx]; [by left|].
  apply list_elem_of_singleton in Hx as ->. right. right. by left.
Defined.

(** ** The debug mode *)

(** Computations that differ in their debug reports are followed side by
    side: from worlds that are alike they reach results that are alike. *)

Lemma alike_fields (w w' : World) :
  alike w w' →
  objects w' = objects w ∧ actions w' = actions w
  ∧ view_layer w' = view_layer w ∧ active w' = active w
  ∧ mode w' = mode w ∧ area_type w' = area_type w
  ∧ frame_start w' = frame_start w ∧ frame_end w' = frame_end w
  ∧ frame_current w' = frame_current w.
Proof. unfold alike, set_reports. intros [=]. by repeat split. Qed.

Lemma alike_set_reports (w w' : World) :
  alike w w' → w' = set_reports (reports w') w.
Proof.
  intros H. apply alike_fields in H
    as (Ho & Ha & Hv & Hac & Hm & Har & Hs & He & Hc).
  destruct w, w'. simpl in *. unfold set_reports. simpl. congruence.
Qed.

Lemma sim_ret {A} (a : A) : sim (ret a) (ret a).
Proof. intros w w' H. by split. Qed.

Lemma sim_raise {A} (e : Exn) : sim (raise (A := A) e) (raise e).
Proof. intros w w' H. by split. Qed.

Lemma sim_bind {A B} (m m' : M A) (k k' : A → M B) :
  sim m m' → (∀ a, sim (k a) (k' a)) → sim (bind m k) (bind m' k').
Proof.
  intros Hm Hk w w' H. unfold bind. specialize (Hm w w' H).
  destruct (m w) as [a w1 | e w1], (m' w') as [a' w1' | e' w1'];
    simpl in Hm; try done.
  destruct Hm as [<- Hw]. by apply Hk.
Qed.

Lemma sim_bind_get {B} (k k' : World → M B) :
  (∀ w r, sim (k w) (k' (set_reports r w))) → sim (bind get k) (bind get k').
Proof.
  intros Hk w w' H. unfold bind, get.
  rewrite (alike_set_reports w w' H) at 1. by apply Hk.
Qed.

Lemma sim_modify (f : World → World) :
  (∀ w r, alike (f w) (f (set_reports r w))) → sim (modify f) (modify f).
Proof.
  intros Hf w w' H. unfold modify. split; [done|].
  rewrite (alike_set_reports w w' H). apply Hf.
Qed.

Lemma sim_try_catch {A} (m m' : M A) (h h' : Exn → M A) :
  sim m m' → (∀ e, sim (h e) (h' e)) →
  sim (try_catch m h) (try_catch m' h').
Proof.
  intros Hm Hh w w' H. unfold try_catch. specialize (Hm w w' H).
  destruct (m w) as [a w1 | e w1], (m' w') as [a' w1' | e' w1'];
    simpl in Hm; try done.
  destruct Hm as [<- Hw]. by apply Hh.
Qed.

Lemma sim_for {A} (l : list A) (body body' : A → M unit) :
  (∀ x, sim (body x) (body' x)) → sim (for_ l body) (for_ l body').
Proof.
  intros Hbody. induction l as [|x l IH]; cbn [for_].
  - apply sim_ret.
  - apply sim_bind; [apply Hbody | intros _; exact IH].
Qed.

Lemma sim_fold_for {A S} (l : list A) (s : S) (body body' : S → A → M S) :
  (∀ s x, sim (body s x) (body' s x)) →
  sim (fold_for l s body) (fold_for l s body').
Proof.
  intros Hbody. revert s. induction l as [|x l IH]; intros s; cbn [fold_for].
  - apply sim_ret.
  - apply sim_bind; [apply Hbody | intros s'; apply IH].
Qed.

Lemma sim_when (b : bool) (m m' : M unit) :
  sim m m' → sim (when b m) (when b m').
Proof. intros H. destruct b; [done | apply sim_ret]. Qed.

Lemma sim_report (l : Level) (m : Message) : sim (report l m) (report l m).
Proof. intros w w' H. split; [done|]. exact H. Qed.

Lemma sim_debug (self self' : Operator) (l : Level) (m : Message) :
  sim (debug self l m) (debug self' l m).
Proof.
  intros w w' H. unfold debug, when, report, modify, ret.
  destruct (debug_mode self), (debug_mode self'); by split.
Qed.

(** One step of a simulation, by the shape of the left computation. *)
Ltac sim_step :=
  lazymatch goal with
  | |- sim (ret _) _ => apply sim_ret
  | |- sim (raise _) _ => apply sim_raise
  | |- sim (report _ _) _ => apply sim_report
  | |- sim (debug _ _ _) _ => apply sim_debug
  | |- sim (modify _) _ => apply sim_modify; intros; reflexivity
  | |- sim (bind get _) _ => apply sim_bind_get; intros ? ?
  | |- sim (bind _ _) _ => apply sim_bind; [|intros ?]
  | |- sim (try_catch _ _) _ => apply sim_try_catch; [|intros ?]
  | |- sim (for_ _ _) _ => apply sim_for; intros ?
  | |- sim (fold_for _ _ _) _ => apply sim_fold_for; intros ? ?
  | |- sim (when _ _) _ => apply sim_when
  end.

Section Debug.
Variable host : Host.
Variables self self' : Operator.
Hypothesis host_blind : log_blind host.
Hypothesis same_name : target_action_name self' = target_action_name self.
Hypothesis same_keep :
  keep_original_actions self' = keep_original_actions self.
Hypothesis same_margin : frame_margin self' = frame_margin self.

Lemma alike_set_reports_r (w : World) r : alike w (set_reports r w).
Proof. reflexivity. Qed.

Lemma sim_mode_set (m : string) : sim (mode_set host m) (mode_set host m).
Proof.
  unfold mode_set. sim_step.
  destruct (host_blind w (set_reports r w) (alike_set_reports_r w r))
    as [_ <-].
  destruct (mode_set_ok host w m); repeat sim_step.
Qed.

Lemma sim_copy_keyframes id path index keyframes :
  sim (copy_keyframes host id path index keyframes)
      (copy_keyframes host id path index keyframes).
Proof.
  unfold copy_keyframes, fcurves_new, keyframe_points_insert, update_action.
  sim_step.
  - sim_step.
    change (get_action (set_reports r w) id) with (get_action w id).
    destruct (fcurve_new_ok host _ path index); repeat sim_step.
  - repeat sim_step.
Qed.

Lemma sim_first_pass master root_name animation_data :
  sim (first_pass host self master root_name animation_data)
      (first_pass host self' master root_name animation_data).
Proof.
  unfold first_pass. sim_step. destruct x as [obj_name props].
  sim_step. destruct x as [prop_name axes]. sim_step.
  unfold first_pass_channel. destruct x as [axis keyframes].
  destruct (_ && _).
  { sim_step; [apply sim_copy_keyframes | sim_step]. }
  destruct (is_transform prop_name); [|sim_step].
  unfold index_component. sim_step.
  { destruct (component axis); sim_step. }
  sim_step.
  change (obj_data (set_reports r w) root_name) with (obj_data w root_name).
  sim_step.
  { destruct (custom_props (obj_data w root_name) !! _); repeat sim_step. }
  sim_step; [apply sim_copy_keyframes | sim_step].
Qed.

Lemma sim_second_pass root_name animation_data :
  sim (second_pass host self root_name animation_data)
      (second_pass host self' root_name animation_data).
Proof.
  unfold second_pass. sim_step. destruct x as [obj_name props].
  destruct (bool_decide _); [sim_step|]. sim_step.
  change (objects (set_reports r w)) with (objects w).
  destruct (objects w !! obj_name); [|sim_step].
  sim_step; [sim_step|]. sim_step. destruct x as [prop_name axes].
  destruct (negb _); [sim_step|]. sim_step.
  unfold second_pass_channel. destruct x as [axis ?].
  unfold index_component. sim_step.
  { destruct (component axis); sim_step. }
  sim_step; [|sim_step]. unfold create_driver.
  sim_step; [sim_step|]. sim_step; [|apply sim_debug].
  destruct (driver_add_ok host obj_name prop_name axis); sim_step.
Qed.

Lemma sim_remove_original root_object obj :
  sim (remove_original root_object obj) (remove_original root_object obj).
Proof.
  unfold remove_original. sim_step.
  change (is_animated (set_reports r w) obj) with (is_animated w obj).
  destruct (_ && _); repeat sim_step.
Qed.

Lemma sim_create_standalone_action root_object animated lo hi :
  sim (create_standalone_action host self root_object animated lo hi)
      (create_standalone_action host self' root_object animated lo hi).
Proof.
  unfold create_standalone_action, actions_new, update_action.
  rewrite same_name. sim_step.
  { sim_step. change (actions (set_reports r w)) with (actions w).
    repeat sim_step. }
  sim_step; [sim_step|]. sim_step.
  change (frame_current (set_reports r w)) with (frame_current w).
  sim_step; [apply sim_debug|]. sim_step.
  change (collect_animation_data (set_reports r0 w0) animated)
    with (collect_animation_data w0 animated).
  sim_step; [sim_step|]. sim_step; [sim_step|]. unfold run_passes. rewrite same_keep.
  sim_step; [apply sim_first_pass|].
  sim_step; [apply sim_second_pass|].
  sim_step.
  { sim_step. sim_step. apply sim_remove_original. }
  repeat sim_step.
Qed.

Lemma sim_restore_state original_mode original_active original_area
  original_selected :
  sim (restore_state host original_mode original_active original_area
         original_selected)
      (restore_state host original_mode original_active original_area
         original_selected).
Proof.
  unfold restore_state, deselect_all, restore_selection, restore_active.
  sim_step; [sim_step|]. sim_step.
  { sim_step. sim_step.
    change (objects (set_reports r w)) with (objects w).
    destruct (bool_decide _); sim_step. }
  sim_step.
  { destruct original_active; [|sim_step]. sim_step.
    change (objects (set_reports r w)) with (objects w).
    destruct (bool_decide _); sim_step. }
  sim_step; [sim_step|]. sim_step; [apply sim_mode_set | sim_step].
Qed.

Lemma sim_set_scene_range lo hi :
  sim (set_scene_range self lo hi) (set_scene_range self' lo hi).
Proof.
  unfold set_scene_range, to_int. sim_step.
  { destruct (py_int lo); sim_step. }
  sim_step; [sim_step|]. sim_step.
  { destruct (py_int hi); sim_step. }
  repeat sim_step.
Qed.

Lemma sim_execute : sim (execute host self) (execute host self').
Proof.
  unfold execute. sim_step.
  destruct (host_blind w (set_reports r w) (alike_set_reports_r w r))
    as [<- _].
  change (active (set_reports r w)) with (active w).
  change (area_type (set_reports r w)) with (area_type w).
  change (selected_objects (set_reports r w)) with (selected_objects w).
  sim_step; [apply sim_debug|]. sim_step.
  change (selected_objects (set_reports r0 w0)) with (selected_objects w0).
  destruct (selected_objects w0) as [|first rest]; [repeat sim_step|].
  sim_step.
  { unfold ensure_active. sim_step.
    change (active (set_reports r1 w1)) with (active w1).
    destruct (active w1); repeat sim_step. }
  sim_step.
  { unfold ensure_object_mode. sim_step; [|sim_step]. sim_step.
    change (active (set_reports r1 w1)) with (active w1).
    change (mode (set_reports r1 w1)) with (mode w1).
    destruct (active w1); [|sim_step].
    destruct (negb _); [apply sim_mode_set | sim_step]. }
  destruct (find_root_object (first :: rest)) as [root_object|];
    [|repeat sim_step].
  sim_step; [apply sim_debug|]. sim_step; [apply sim_debug|]. sim_step.
  change (is_animated (set_reports r1 w1)) with (is_animated w1).
  destruct (filter _ _) as [|obj animated]; [repeat sim_step|].
  unfold run_combination. sim_step; [apply sim_debug|]. sim_step.
  change (find_animation_range (set_reports r2 w2))
    with (find_animation_range w2).
  unfold frame_range. rewrite same_margin.
  change (frame_start (set_reports r2 w2)) with (frame_start w2).
  change (frame_end (set_reports r2 w2)) with (frame_end w2).
  destruct (find_animation_range w2 (obj :: animated)) as [lo hi].
  destruct (_ || _).
  - sim_step; [apply sim_set_scene_range|].
    sim_step; [apply sim_create_standalone_action|].
    sim_step; [apply sim_restore_state | sim_step].
  - sim_step; [apply sim_set_scene_range|].
    sim_step; [apply sim_create_standalone_action|].
    sim_step; [apply sim_restore_state | sim_step].
Qed.

End Debug.

(** X20: [debug_mode] changes the report log and nothing else.  On a host
    whose answers do not depend on the report log, [execute] with the
    option set to any other value returns the same status or raises the
    same exception, and leaves a world that differs in its report log at
    most. *)
Theorem debug_mode_only_reports (host : Host) (self : Operator)
  (flag : bool) (w : World) :
  log_blind host →
  alike_results (execute host self w)
    (execute host
       (mkOperator (target_action_name self) (keep_original_actions self)
          (add_root_track self) (frame_margin self) flag)
       w).
Proof.
  intros Hhost. by apply sim_execute.
Qed.

Lemma debug_mode_only_reports_witness :
  alike_results (execute blender options scene)
    (execute blender (mkOperator "Combined_Animation" true true 5 false)
       scene).
Proof.
  apply (debug_mode_only_reports blender options false scene).
  intros w w' H. apply alike_fields in H as (_ & _ & _ & _ & Hmode & _).
  split; [symmetry; exact Hmode | done].
Defined.

(** ** Registration *)

Lemma Registry_eq (r r' : Registry) :
  scene_props r = scene_props r' → classes r = classes r' → r = r'.
Proof. destruct r, r'. simpl. by intros -> ->. Qed.

Ltac registry_step :=
  unfold and_then at 1;
  first
    [ progress unfold set_scene_prop at 1
    | unfold del_scene_prop at 1; simpl;
      rewrite ?lookup_delete_ne by done;
      rewrite ?lookup_insert_ne by done; rewrite lookup_insert_eq
    | unfold register_class at 1; simpl; rewrite decide_False
    | unfold unregister_class at 1; simpl; rewrite decide_True ];
  simpl.

(** X21: [register] and [unregister] are inverse on a registry without the
    add-on.  [register] then succeeds, declares the four scene properties
    and registers the two classes, and [unregister] gives back the
    registry [register] started from: other properties and classes are
    kept by both. *)
Theorem register_unregister (r : Registry) :
  unregistered r →
  ∃ r', register r = Done r'
        ∧ (∀ attr, attr ∈ addon_props → is_Some (scene_props r' !! attr))
        ∧ (∀ cls, cls ∈ addon_classes → cls ∈ classes r')
        ∧ unregister r' = Done r.
Proof.
  intros [Hprops Hclasses].
  assert (H1 : scene_props r !! "ca_keep_originals" = None)
    by (apply Hprops; by left).
  assert (H2 : scene_props r !! "ca_add_root_track" = None)
    by (apply Hprops; right; by left).
  assert (H3 : scene_props r !! "ca_frame_margin" = None)
    by (apply Hprops; do 2 right; by left).
  assert (H4 : scene_props r !! "ca_debug_mode" = None)
    by (apply Hprops; do 3 right; by left).
  assert (Ho : "CombineAnimationsOperator" ∉ classes r)
    by (apply Hclasses; by left).
  assert (Hp : "CombineAnimationsPanel" ∉ classes r)
    by (apply Hclasses; right; by left).
  eexists. split.
  { unfold register. do 4 registry_step.
    registry_step; [|done].
    unfold register_class. simpl. rewrite decide_False; [reflexivity|].
    rewrite elem_of_union, elem_of_singleton. by intros [? | ?]. }
  split; [|split].
  - intros attr Hattr. simpl. unfold addon_props in Hattr.
    rewrite !elem_of_cons in Hattr.
    destruct Hattr as [-> | [-> | [-> | [-> | Hnil]]]];
      [..|by apply elem_of_nil in Hnil];
      rewrite ?lookup_insert_ne by done; rewrite lookup_insert_eq; done.
  - intros cls Hcls. simpl. unfold addon_classes in Hcls.
    rewrite !elem_of_cons in Hcls.
    rewrite !elem_of_union, !elem_of_singleton.
    destruct Hcls as [-> | [-> | Hnil]]; [tauto | tauto |].
    by apply elem_of_nil in Hnil.
  - unfold unregister. do 4 registry_step.
    registry_step.
    2: { rewrite !elem_of_union, !elem_of_singleton. tauto. }
    unfold unregister_class. simpl. rewrite decide_True.
    2: { rewrite elem_of_difference, !elem_of_union, !elem_of_singleton.
         split; [tauto | done]. }
    f_equal. apply Registry_eq; simpl.
    + apply map_eq. intros k.
      repeat (rewrite lookup_delete; case_decide; [by subst|]).
      by rewrite !lookup_insert_ne by done.
    + apply set_eq. intros x.
      rewrite !elem_of_difference, !elem_of_union, !elem_of_singleton.
      split; [tauto|]. intros Hx. split; [split; [tauto|]|]; by intros ->.
Qed.

Lemma register_unregister_witness :
  ∃ r', register (mkRegistry ∅ ∅) = Done r'
        ∧ (∀ attr, attr ∈ addon_props → is_Some (scene_props r' !! attr))
        ∧ (∀ cls, cls ∈ addon_classes → cls ∈ classes r')
        ∧ unregister r' = Done (mkRegistry ∅ ∅).
Proof.
  apply (register_unregister (mkRegistry ∅ ∅)). split.
  - intros attr _. apply lookup_empty.
  - intros cls _. apply not_elem_of_empty.
Defined.

(** X22: [register] cannot be run twice.  After a [register] that
    succeeded, a second one overwrites the four scene properties with the
    same declarations and then raises the [ValueError] of
    [register_class] for the operator class; the registry is as the first
    call left it. *)
Theorem register_twice (r r' : Registry) :
  register r = Done r' → register r' = Failed ValueError r'.
Proof.
  unfold register. do 4 registry_step.
  unfold and_then at 1, register_class at 1. simpl.
  destruct (decide ("CombineAnimationsOperator" ∈ classes r));
    [discriminate|].
  unfold register_class. simpl. case_decide; [discriminate|].
  intros [= <-]. do 4 registry_step.
  unfold and_then, register_class. simpl.
  rewrite decide_True
    by (rewrite !elem_of_union, !elem_of_singleton; tauto).
  f_equal. apply Registry_eq; simpl; [|done].
  apply map_eq. intros k.
  rewrite !lookup_insert. repeat case_decide; done.
Qed.

Lemma register_twice_witness :
  ∃ r', register (mkRegistry ∅ ∅) = Done r'
        ∧ register r' = Failed ValueError r'.
Proof.
  eexists. split; [reflexivity|].
  apply (register_twice (mkRegistry ∅ ∅)). reflexivity.
Defined.

(** X23: [unregister] needs a registered add-on.  When the first of the
    scene properties is missing, as it is before any [register] and after
    an [unregister] that succeeded, [unregister] raises the
    [AttributeError] of its first [del] and changes nothing: the classes
    stay registered or unregistered as they were. *)
Theorem unregister_missing (r : Registry) :
  (scene_props r !! "ca_keep_originals" = None →
   unregister r = Failed AttributeError r)
  ∧ ∀ r0, unregister r0 = Done r → unregister r = Failed AttributeError r.
Proof.
  assert (Hmissing : ∀ r1, scene_props r1 !! "ca_keep_originals" = None →
                           unregister r1 = Failed AttributeError r1).
  { intros r1 H. unfold unregister, and_then at 1, del_scene_prop at 1.
    by rewrite H. }
  split; [apply Hmissing|]. intros r0 Hdone. apply Hmissing.
  revert Hdone. unfold unregister, and_then, del_scene_prop, unregister_class.
  repeat (match goal with
          | |- context [match ?x !! ?k with _ => _ end] =>
              destruct (x !! k) eqn:?; [|discriminate]
          | |- context [decide ?P] => destruct (decide P); [|discriminate]
          end; cbn [scene_props classes]).
  intros [= <-]. cbn [scene_props classes].
  by rewrite !lookup_delete_ne, lookup_delete_eq by done.
Qed.
